(** * wmk: decoration hit-testing, interactive geometry and window cycling

    A shallow embedding of [src/ssd/ssd.c], [src/interactive.c] and
    [src/osd.c], and of the lookup of workspaces in [src/workspaces.c].

    Conventions of the embedding:
    - a C [int] is a [Z]; signed overflow is undefined in C and is not
      modelled, the arithmetic is the mathematical one, which is the one of
      the code where the [int]s and their sums are in the range of [int]:
      the properties that depend on such a sum assume so;
    - a C [double] is an IEEE 754 binary64 number, [spec_float] with
      precision 53 and maximal exponent 1024, with the operations of
      [SpecFloat] (round to nearest, ties to even);
    - a pointer is an [option]: [None] is [NULL];
    - a C string is a [string], the characters before the terminating NUL;
    - the scene graph is a store of nodes indexed by handles, so that two
      pointers to one node are two copies of one handle. *)

From Stdlib Require Import Ascii String.
From Stdlib Require Import ZArith Bool List Lia.
From Stdlib Require Import Floats.SpecFloat.
From stdpp Require Import base option list gmap strings.

Local Open Scope Z_scope.

(** ** C doubles *)

Definition double_prec : Z := 53.
Definition double_emax : Z := 1024.

Definition double : Type := spec_float.

(** The conversion [(double) i] of an [int]. *)
Definition of_int (i : Z) : double :=
  binary_normalize double_prec double_emax i 0 false.

Definition double_add (a b : double) : double :=
  SFadd double_prec double_emax a b.
Definition double_sub (a b : double) : double :=
  SFsub double_prec double_emax a b.
Definition double_mul (a b : double) : double :=
  SFmul double_prec double_emax a b.
Definition double_div (a b : double) : double :=
  SFdiv double_prec double_emax a b.

(** [a < b], [a <= b], [a > b], [a >= b]; all false on a NaN. *)
Definition double_lt (a b : double) : bool := SFltb a b.
Definition double_le (a b : double) : bool := SFleb a b.
Definition double_gt (a b : double) : bool := SFltb b a.
Definition double_ge (a b : double) : bool := SFleb b a.

Declare Scope double_scope.
Delimit Scope double_scope with D.
Notation "a + b" := (double_add a b) : double_scope.
Notation "a - b" := (double_sub a b) : double_scope.
Notation "a * b" := (double_mul a b) : double_scope.
Notation "a / b" := (double_div a b) : double_scope.
Notation "a <? b" := (double_lt a b) : double_scope.
Notation "a <=? b" := (double_le a b) : double_scope.
Notation "a >? b" := (double_gt a b) : double_scope.
Notation "a >=? b" := (double_ge a b) : double_scope.

Definition INT_MIN : Z := - 2 ^ 31.
Definition INT_MAX : Z := 2 ^ 31 - 1.

Definition int_range (i : Z) : Prop := INT_MIN <= i <= INT_MAX.

(** The integral part of a finite double, the fractional part discarded. *)
Definition trunc (d : double) : option Z :=
  match d with
  | S754_zero _ => Some 0
  | S754_finite s m e =>
      let a := if 0 <=? e then Z.pos m * 2 ^ e else Z.pos m / 2 ^ (- e) in
      Some (if s then - a else a)
  | S754_infinity _ | S754_nan => None
  end.

(** The conversion [(int) d]: defined when the integral part of [d] is an
    [int], undefined ([None]) otherwise (C11 6.3.1.4). *)
Definition to_int (d : double) : option Z :=
  match trunc d with
  | Some i => if (INT_MIN <=? i) && (i <=? INT_MAX) then Some i else None
  | None => None
  end.

(** ** wlroots boxes and cursors *)

Record wlr_box : Type := mk_box { x : Z; y : Z; width : Z; height : Z }.

(** The pointer position carried by a [struct wlr_cursor]. *)
Record wlr_cursor : Type := mk_cursor { cursor_x : double; cursor_y : double }.

(** wlroots, [wlr_box_empty]: a box without area. *)
Definition wlr_box_empty (box : wlr_box) : bool :=
  (width box <=? 0) || (height box <=? 0).

(** wlroots, [wlr_box_contains_point]: the left and top bounds belong to the
    box, the right and bottom ones do not; an empty box contains nothing. *)
Definition wlr_box_contains_point (box : wlr_box) (px py : double) : bool :=
  if wlr_box_empty box then false
  else (px >=? of_int (x box))%D && (px <? of_int (x box + width box))%D
       && (py >=? of_int (y box))%D && (py <? of_int (y box + height box))%D.

(** The values of [rc] (the parsed configuration) that the code reads. *)
Record rcxml : Type := mk_rc {
  resize_corner_range : Z;
  snap_edge_range : Z;
  snap_top_maximize : bool
}.

(** ** The scene graph

    A [struct wlr_scene_node *] is a handle into the store of nodes; a
    [struct wlr_scene_tree *] is the handle of the node the tree embeds. *)

Definition node_ref : Type := positive.

Inductive wlr_scene_node_type : Type :=
  | WLR_SCENE_NODE_TREE
  | WLR_SCENE_NODE_RECT
  | WLR_SCENE_NODE_BUFFER.

Record wlr_scene_node : Type := mk_node {
  node_type : wlr_scene_node_type;
  node_parent : option node_ref;
  node_enabled : bool;
  (** whether [lab_wlr_surface_from_node] finds a surface behind the node *)
  node_surface : bool
}.

Record scene : Type := mk_scene {
  nodes : gmap node_ref wlr_scene_node;
  (** the children of each tree, bottom-most first *)
  children : gmap node_ref (list node_ref)
}.

Definition set_node_enabled (b : bool) (n : wlr_scene_node) : wlr_scene_node :=
  {| node_type := node_type n; node_parent := node_parent n;
     node_enabled := b; node_surface := node_surface n |}.

Definition set_node_parent (p : option node_ref) (n : wlr_scene_node)
  : wlr_scene_node :=
  {| node_type := node_type n; node_parent := p;
     node_enabled := node_enabled n; node_surface := node_surface n |}.

(** [node->parent] *)
Definition parent_of (sc : scene) (n : node_ref) : option node_ref :=
  nodes sc !! n ≫= node_parent.

(** [node->enabled] *)
Definition enabled (sc : scene) (n : node_ref) : option bool :=
  node_enabled <$> nodes sc !! n.

(** wlroots, [wlr_scene_node_set_enabled]. *)
Definition wlr_scene_node_set_enabled (n : node_ref) (b : bool) (sc : scene)
  : scene :=
  {| nodes := alter (set_node_enabled b) n (nodes sc);
     children := children sc |}.

(** ** Part taxonomy ([enum ssd_part_type]) *)

(** Modelled from the spec: [enum ssd_part_type], declared in [ssd.h], which
    is not among the sources.  The members are the ones the spec's data
    model and the sources name; their order is the one the ranges of
    [ssd_part_contains] rely on: the buttons from [LAB_SSD_BUTTON_CLOSE] to
    [LAB_SSD_BUTTON_OMNIPRESENT], then the virtual group [LAB_SSD_BUTTON],
    the titlebar before the title, and everything of a window's frame
    between the close button and [LAB_SSD_CLIENT]. *)
Inductive ssd_part_type : Type :=
  | LAB_SSD_NONE
  | LAB_SSD_BUTTON_CLOSE
  | LAB_SSD_BUTTON_MAXIMIZE
  | LAB_SSD_BUTTON_ICONIFY
  | LAB_SSD_BUTTON_WINDOW_ICON
  | LAB_SSD_BUTTON_OMNIPRESENT
  | LAB_SSD_BUTTON
  | LAB_SSD_PART_TITLEBAR
  | LAB_SSD_PART_TITLE
  | LAB_SSD_PART_CORNER_TOP_LEFT
  | LAB_SSD_PART_CORNER_TOP_RIGHT
  | LAB_SSD_PART_CORNER_BOTTOM_RIGHT
  | LAB_SSD_PART_CORNER_BOTTOM_LEFT
  | LAB_SSD_PART_TOP
  | LAB_SSD_PART_RIGHT
  | LAB_SSD_PART_BOTTOM
  | LAB_SSD_PART_LEFT
  | LAB_SSD_CLIENT
  | LAB_SSD_FRAME
  | LAB_SSD_ALL.

(** The integer value of an enumerator: its position in the declaration. *)
Definition enum_value (t : ssd_part_type) : Z :=
  match t with
  | LAB_SSD_NONE => 0
  | LAB_SSD_BUTTON_CLOSE => 1
  | LAB_SSD_BUTTON_MAXIMIZE => 2
  | LAB_SSD_BUTTON_ICONIFY => 3
  | LAB_SSD_BUTTON_WINDOW_ICON => 4
  | LAB_SSD_BUTTON_OMNIPRESENT => 5
  | LAB_SSD_BUTTON => 6
  | LAB_SSD_PART_TITLEBAR => 7
  | LAB_SSD_PART_TITLE => 8
  | LAB_SSD_PART_CORNER_TOP_LEFT => 9
  | LAB_SSD_PART_CORNER_TOP_RIGHT => 10
  | LAB_SSD_PART_CORNER_BOTTOM_RIGHT => 11
  | LAB_SSD_PART_CORNER_BOTTOM_LEFT => 12
  | LAB_SSD_PART_TOP => 13
  | LAB_SSD_PART_RIGHT => 14
  | LAB_SSD_PART_BOTTOM => 15
  | LAB_SSD_PART_LEFT => 16
  | LAB_SSD_CLIENT => 17
  | LAB_SSD_FRAME => 18
  | LAB_SSD_ALL => 19
  end.

#[global] Instance ssd_part_type_eq_dec : EqDecision ssd_part_type.
Proof. solve_decision. Defined.

(** [a == b] on enumerators. *)
Definition part_eqb (a b : ssd_part_type) : bool := bool_decide (a = b).

(** [lo <= c && c <= hi] on enumerators. *)
Definition part_between (lo c hi : ssd_part_type) : bool :=
  (enum_value lo <=? enum_value c) && (enum_value c <=? enum_value hi).

(** [ssd_part_contains], ssd.c. *)
Definition ssd_part_contains (whole candidate : ssd_part_type) : bool :=
  if part_eqb whole candidate || part_eqb whole LAB_SSD_ALL then true
  else if part_eqb whole LAB_SSD_BUTTON then
    part_between LAB_SSD_BUTTON_CLOSE candidate LAB_SSD_BUTTON_OMNIPRESENT
  else if part_eqb whole LAB_SSD_PART_TITLEBAR then
    part_between LAB_SSD_BUTTON_CLOSE candidate LAB_SSD_PART_TITLE
  else if part_eqb whole LAB_SSD_PART_TITLE then
    (* "Title" includes blank areas of "Titlebar" as well *)
    part_between LAB_SSD_PART_TITLEBAR candidate LAB_SSD_PART_TITLE
  else if part_eqb whole LAB_SSD_FRAME then
    part_between LAB_SSD_BUTTON_CLOSE candidate LAB_SSD_CLIENT
  else if part_eqb whole LAB_SSD_PART_TOP then
    part_eqb candidate LAB_SSD_PART_CORNER_TOP_LEFT
    || part_eqb candidate LAB_SSD_PART_CORNER_TOP_RIGHT
  else if part_eqb whole LAB_SSD_PART_RIGHT then
    part_eqb candidate LAB_SSD_PART_CORNER_TOP_RIGHT
    || part_eqb candidate LAB_SSD_PART_CORNER_BOTTOM_RIGHT
  else if part_eqb whole LAB_SSD_PART_BOTTOM then
    part_eqb candidate LAB_SSD_PART_CORNER_BOTTOM_RIGHT
    || part_eqb candidate LAB_SSD_PART_CORNER_BOTTOM_LEFT
  else if part_eqb whole LAB_SSD_PART_LEFT then
    part_eqb candidate LAB_SSD_PART_CORNER_TOP_LEFT
    || part_eqb candidate LAB_SSD_PART_CORNER_BOTTOM_LEFT
  else false.

(** ** Decoration model ([struct ssd], ssd-internal.h) *)

Record ssd_part : Type := mk_part {
  part_type : ssd_part_type;
  (** this part represented in the scene graph *)
  part_node : option node_ref
}.

Record ssd_sub_tree : Type := mk_sub_tree {
  tree : option node_ref;
  parts : list ssd_part
}.

(** The fields of [struct view], and the values derived from a view, that
    the code reads. *)
Record view : Type := mk_view {
  current : wlr_box;
  (** the value of [view_effective_height(view, false)] *)
  effective_height : Z;
  ssd_enabled : bool;
  fullscreen : bool;
  ssd_titlebar_hidden : bool;
  (** [view->server->theme->titlebar_height] *)
  titlebar_height : Z;
  (** the value of [view_is_floating(view)] *)
  floating : bool;
  (** [view->scene_tree], the handle of the node the tree embeds *)
  scene_tree : option node_ref;
  (** whether the view meets [rc.window_switcher.criteria] *)
  cycle_candidate : bool
}.

Record ssd : Type := mk_ssd {
  ssd_view : option view;
  ssd_tree : option node_ref;
  extents : ssd_sub_tree;
  titlebar_active : ssd_sub_tree;
  titlebar_inactive : ssd_sub_tree;
  border_active : ssd_sub_tree;
  border_inactive : ssd_sub_tree;
  shadow_active : ssd_sub_tree;
  shadow_inactive : ssd_sub_tree
}.

(** ** Part classifier (ssd.c) *)

(** The box [get_resizing_type] checks the cursor against: the current box
    of the view with its effective height, extended upwards by the titlebar
    when the titlebar is visible. *)
Definition view_box_of (v : view) : wlr_box :=
  let box := {| x := x (current v); y := y (current v);
                width := width (current v); height := effective_height v |} in
  if negb (ssd_titlebar_hidden v) then
    (* If the titlebar is visible, consider it part of the view *)
    {| x := x box; y := y box - titlebar_height v;
       width := width box; height := height box + titlebar_height v |}
  else box.

(** [MAX(0, MIN(rc.resize_corner_range, view_box.height / 2))]; the division
    of C truncates towards zero. *)
Definition corner_height (rc : rcxml) (view_box : wlr_box) : Z :=
  Z.max 0 (Z.min (resize_corner_range rc) (height view_box ÷ 2)).

(** [MAX(0, MIN(rc.resize_corner_range, view_box.width / 2))] *)
Definition corner_width (rc : rcxml) (view_box : wlr_box) : Z :=
  Z.max 0 (Z.min (resize_corner_range rc) (width view_box ÷ 2)).

(** [get_resizing_type], ssd.c.  The sums of [int]s, the ones of
    [wlr_box_contains_point] among them, are sums in [Z]: they are the sums
    of the code for a box whose bounds are [int]s. *)
Definition get_resizing_type (rc : rcxml) (s : option ssd)
    (cursor : option wlr_cursor) : ssd_part_type :=
  match s ≫= ssd_view, cursor with
  | Some v, Some c =>
      if negb (ssd_enabled v) || fullscreen v then LAB_SSD_NONE
      else
        let view_box := view_box_of v in
        if wlr_box_contains_point view_box (cursor_x c) (cursor_y c) then
          (* A cursor in bounds of the view is never in an SSD context *)
          LAB_SSD_NONE
        else
          let corner_height := corner_height rc view_box in
          let corner_width := corner_width rc view_box in
          let left :=
            (cursor_x c <? of_int (x view_box + corner_width))%D in
          let right :=
            (cursor_x c
             >? of_int (x view_box + width view_box - corner_width))%D in
          let top :=
            (cursor_y c <? of_int (y view_box + corner_height))%D in
          let bottom :=
            (cursor_y c
             >? of_int (y view_box + height view_box - corner_height))%D in
          if top && left then LAB_SSD_PART_CORNER_TOP_LEFT
          else if top && right then LAB_SSD_PART_CORNER_TOP_RIGHT
          else if bottom && left then LAB_SSD_PART_CORNER_BOTTOM_LEFT
          else if bottom && right then LAB_SSD_PART_CORNER_BOTTOM_RIGHT
          else if top then LAB_SSD_PART_TOP
          else if bottom then LAB_SSD_PART_BOTTOM
          else if left then LAB_SSD_PART_LEFT
          else if right then LAB_SSD_PART_RIGHT
          else LAB_SSD_NONE
  | _, _ => LAB_SSD_NONE
  end.

(** [p == q] on tree pointers, either of which may be [NULL]. *)
Definition ptr_eqb (p q : option node_ref) : bool := bool_decide (p = q).

(** The choice of [part_list] in [ssd_get_part_type]: the parts of the first
    sub-tree that is the parent, the grandparent or the great-grandparent of
    the node, in the order of the source; [None] is [part_list == NULL]. *)
Definition find_part_list (sc : scene) (s : ssd) (node : node_ref)
  : option (list ssd_part) :=
  let parent := parent_of sc node in
  let grandparent := parent ≫= parent_of sc in
  let greatgrandparent := grandparent ≫= parent_of sc in
  (* active titlebar *)
  if ptr_eqb parent (tree (titlebar_active s)) then
    Some (parts (titlebar_active s))
  else if ptr_eqb grandparent (tree (titlebar_active s)) then
    Some (parts (titlebar_active s))
  else if ptr_eqb greatgrandparent (tree (titlebar_active s)) then
    Some (parts (titlebar_active s))
  (* active border *)
  else if ptr_eqb parent (tree (border_active s)) then
    Some (parts (border_active s))
  (* inactive titlebar *)
  else if ptr_eqb parent (tree (titlebar_inactive s)) then
    Some (parts (titlebar_inactive s))
  else if ptr_eqb grandparent (tree (titlebar_inactive s)) then
    Some (parts (titlebar_inactive s))
  else if ptr_eqb greatgrandparent (tree (titlebar_inactive s)) then
    Some (parts (titlebar_inactive s))
  (* inactive border *)
  else if ptr_eqb parent (tree (border_inactive s)) then
    Some (parts (border_inactive s))
  else None.

(** The loop of [ssd_get_part_type] over a part list: the type of the first
    part whose node is [node], [LAB_SSD_NONE] when there is none. *)
Fixpoint scan_parts (node : node_ref) (l : list ssd_part) : ssd_part_type :=
  match l with
  | [] => LAB_SSD_NONE
  | part :: rest =>
      if ptr_eqb (Some node) (part_node part) then part_type part
      else scan_parts node rest
  end.

(** The value of [part_type] in [ssd_get_part_type] when the loop is left. *)
Definition node_part_type (sc : scene) (s : ssd) (node : node_ref)
  : ssd_part_type :=
  match find_part_list sc s node with
  | Some part_list => scan_parts node part_list
  | None => LAB_SSD_NONE
  end.

(** [node->type == WLR_SCENE_NODE_BUFFER && lab_wlr_surface_from_node(node)] *)
Definition is_client_node (sc : scene) (node : node_ref) : bool :=
  match nodes sc !! node with
  | Some n =>
      match node_type n with
      | WLR_SCENE_NODE_BUFFER => node_surface n
      | _ => false
      end
  | None => false
  end.

(** [ssd_get_part_type], ssd.c. *)
Definition ssd_get_part_type (rc : rcxml) (sc : scene) (s : option ssd)
    (node : option node_ref) (cursor : option wlr_cursor) : ssd_part_type :=
  match node with
  | None => LAB_SSD_NONE
  | Some node =>
      if is_client_node sc node then LAB_SSD_CLIENT
      else
        match s with
        | None => LAB_SSD_NONE
        | Some d =>
            let part_type := node_part_type sc d node in
            if part_eqb part_type LAB_SSD_NONE then part_type
            else
              (* Perform cursor-based context checks *)
              let resizing_type := get_resizing_type rc s cursor in
              if negb (part_eqb resizing_type LAB_SSD_NONE) then resizing_type
              else part_type
        end
  end.

(** [ssd_set_active], ssd.c.  [None] stands for the dereference of a [NULL]
    border or titlebar tree. *)
Definition ssd_set_active (s : option ssd) (active : bool) (sc : scene)
  : option scene :=
  match s with
  | None => Some sc
  | Some d =>
      ba ← tree (border_active d);
      ta ← tree (titlebar_active d);
      bi ← tree (border_inactive d);
      ti ← tree (titlebar_inactive d);
      let sc := wlr_scene_node_set_enabled ba active sc in
      let sc := wlr_scene_node_set_enabled ta active sc in
      let sc := match tree (shadow_active d) with
                | Some sa => wlr_scene_node_set_enabled sa active sc
                | None => sc
                end in
      let sc := wlr_scene_node_set_enabled bi (negb active) sc in
      let sc := wlr_scene_node_set_enabled ti (negb active) sc in
      let sc := match tree (shadow_inactive d) with
                | Some si => wlr_scene_node_set_enabled si (negb active) sc
                | None => sc
                end in
      Some sc
  end.

(** ** Interactive move and resize (interactive.c) *)

Inductive input_state : Type :=
  | LAB_INPUT_STATE_PASSTHROUGH
  | LAB_INPUT_STATE_MOVE
  | LAB_INPUT_STATE_RESIZE
  | LAB_INPUT_STATE_WINDOW_SWITCHER.

#[global] Instance input_state_eq_dec : EqDecision input_state.
Proof. solve_decision. Defined.

Inductive view_edge : Type :=
  | VIEW_EDGE_INVALID
  | VIEW_EDGE_LEFT
  | VIEW_EDGE_RIGHT
  | VIEW_EDGE_UP
  | VIEW_EDGE_DOWN
  | VIEW_EDGE_CENTER.

Record output : Type := mk_output {
  (** the value of [output_is_usable(output)] *)
  usable : bool;
  usable_area : wlr_box;
  (** the position of the output in the output layout *)
  layout_x : Z;
  layout_y : Z
}.

Inductive lab_cycle_dir : Type :=
  | LAB_CYCLE_DIR_NONE
  | LAB_CYCLE_DIR_FORWARD
  | LAB_CYCLE_DIR_BACKWARD.

(** A [struct view *] held by the server is a handle into its views. *)
Definition view_ref : Type := positive.

Record osd_state : Type := mk_osd_state {
  cycle_view : option view_ref;
  preview_was_enabled : bool;
  preview_node : option node_ref;
  preview_parent : option node_ref;
  preview_anchor : option node_ref;
  (** [preview_outline], by the node of its tree *)
  preview_outline : option node_ref
}.

Record server : Type := mk_server {
  input_mode : input_state;
  grabbed_view : option view_ref;
  grab_x : double;
  grab_y : double;
  grab_box : wlr_box;
  (** [server->seat.cursor] *)
  seat_cursor : wlr_cursor;
  (** the value of [output_nearest_to_cursor(server)] *)
  nearest_output : option output;
  (** [server->views], in stacking order, topmost first *)
  views : list view_ref;
  view_table : gmap view_ref view;
  osd : osd_state;
  server_scene : scene
}.

(** [max_move_scale], interactive.c.  The result is [None] where a
    conversion to [int] is undefined. *)
Definition max_move_scale (pos_cursor pos_old size_old size_new : double)
  : option Z :=
  let anchor_frac := ((pos_cursor - pos_old) / size_old)%D in
  pos_new ← to_int (pos_cursor - (size_new * anchor_frac))%D;
  if (of_int pos_new <? pos_old)%D then
    (* Clamp by using the old offsets of the maximized window *)
    to_int pos_old
  else Some pos_new.

Definition set_grab_box (b : wlr_box) (s : server) : server :=
  {| input_mode := input_mode s; grabbed_view := grabbed_view s;
     grab_x := grab_x s; grab_y := grab_y s; grab_box := b;
     seat_cursor := seat_cursor s; nearest_output := nearest_output s;
     views := views s; view_table := view_table s; osd := osd s;
     server_scene := server_scene s |}.

(** [interactive_anchor_to_cursor], interactive.c: the server and [*geo]
    after the call.  The result is [None] when the assertion on the input
    mode fails or a conversion to [int] is undefined. *)
Definition interactive_anchor_to_cursor (s : server) (geo : wlr_box)
  : option (server * wlr_box) :=
  if negb (bool_decide (input_mode s = LAB_INPUT_STATE_MOVE)) then None
  else if wlr_box_empty geo then Some (s, geo)
  else
    (* Resize grab_box while anchoring it to grab_box.{x,y} *)
    gx ← max_move_scale (grab_x s) (of_int (x (grab_box s)))
           (of_int (width (grab_box s))) (of_int (width geo));
    gy ← max_move_scale (grab_y s) (of_int (y (grab_box s)))
           (of_int (height (grab_box s))) (of_int (height geo));
    let box :=
      {| x := gx; y := gy; width := width geo; height := height geo |} in
    geo_x ← to_int (of_int gx + (cursor_x (seat_cursor s) - grab_x s))%D;
    geo_y ← to_int (of_int gy + (cursor_y (seat_cursor s) - grab_y s))%D;
    Some (set_grab_box box s,
          {| x := geo_x; y := geo_y;
             width := width geo; height := height geo |}).

(** [edge_from_cursor], interactive.c: the edge returned and the output
    stored through [dest_output] ([None]: nothing is stored).  The result is
    [None] when no view is grabbed, where [view_is_floating] has no view to
    look at.  The margins are sums in [Z]: they are the sums of the code
    where they are [int]s. *)
Definition edge_from_cursor (rc : rcxml) (s : server)
  : option (view_edge * option output) :=
  v ← grabbed_view s ≫= (view_table s !!.);
  if negb (floating v) then Some (VIEW_EDGE_INVALID, None)
  else
    let snap_range := snap_edge_range rc in
    if snap_range =? 0 then Some (VIEW_EDGE_INVALID, None)
    else
      match nearest_output s with
      | None => Some (VIEW_EDGE_INVALID, None)
      | Some o =>
          if negb (usable o) then Some (VIEW_EDGE_INVALID, None)
          else
            (* Translate into output local coordinates *)
            let cursor_x :=
              (cursor_x (seat_cursor s) - of_int (layout_x o))%D in
            let cursor_y :=
              (cursor_y (seat_cursor s) - of_int (layout_y o))%D in
            let area := usable_area o in
            let edge :=
              if (cursor_x <=? of_int (x area + snap_range))%D then
                VIEW_EDGE_LEFT
              else if (cursor_x
                       >=? of_int (x area + width area - snap_range))%D then
                VIEW_EDGE_RIGHT
              else if (cursor_y <=? of_int (y area + snap_range))%D then
                if snap_top_maximize rc then VIEW_EDGE_CENTER else VIEW_EDGE_UP
              else if (cursor_y
                       >=? of_int (y area + height area - snap_range))%D then
                VIEW_EDGE_DOWN
              else (* Not close to any edge *) VIEW_EDGE_INVALID in
            Some (edge, Some o)
      end.

(** ** Scene graph operations used by the window switcher

    The operations of wlroots on the store of nodes.  Where wlroots asserts
    ([NULL] parent, a sibling of another tree) the result is [None]. *)

(** The children of a tree. *)
Definition children_of (sc : scene) (t : node_ref) : list node_ref :=
  default [] (children sc !! t).

(** The list [l] without [n]. *)
Definition unlink (n : node_ref) (l : list node_ref) : list node_ref :=
  filter (λ m, m ≠ n) l.

(** The list [l] with [n] linked right after [sibling]. *)
Fixpoint link_after (sibling n : node_ref) (l : list node_ref)
  : list node_ref :=
  match l with
  | [] => []
  | m :: rest =>
      if bool_decide (m = sibling) then m :: n :: rest
      else m :: link_after sibling n rest
  end.

(** Whether [top] is [n] or an ancestor of [n], looking [fuel] parents up. *)
Fixpoint is_under (sc : scene) (fuel : nat) (top n : node_ref) : bool :=
  bool_decide (n = top)
  || match fuel with
     | O => false
     | S fuel =>
         match parent_of sc n with
         | Some p => is_under sc fuel top p
         | None => false
         end
     end.

(** wlroots, [wlr_scene_node_reparent]: the node leaves the children of its
    parent and becomes the topmost child of [new_parent]; a node cannot
    become its own ancestor. *)
Definition wlr_scene_node_reparent (n : node_ref)
    (new_parent : option node_ref) (sc : scene) : option scene :=
  p ← new_parent;
  if ptr_eqb (parent_of sc n) (Some p) then Some sc
  else if is_under sc (size (nodes sc)) n p then None
  else
    let detached :=
      match parent_of sc n with
      | Some old => alter (unlink n) old (children sc)
      | None => children sc
      end in
    Some {| nodes := alter (set_node_parent (Some p)) n (nodes sc);
            children := <[p := default [] (detached !! p) ++ [n]]> detached |}.

(** wlroots, [wlr_scene_node_place_above]: the node is moved right above
    [sibling], a child of the same tree. *)
Definition wlr_scene_node_place_above (n sibling : node_ref) (sc : scene)
  : option scene :=
  if bool_decide (n = sibling) then None
  else
    match parent_of sc n with
    | Some p =>
        if negb (ptr_eqb (parent_of sc sibling) (Some p)) then None
        else Some {| nodes := nodes sc;
                     children := alter (λ l, link_after sibling n (unlink n l))
                                   p (children sc) |}
    | None => None
    end.

(** wlroots, [wlr_scene_node_lower_to_bottom]: the node becomes the first
    child of its parent. *)
Definition wlr_scene_node_lower_to_bottom (n : node_ref) (sc : scene)
  : scene :=
  match parent_of sc n with
  | Some p => {| nodes := nodes sc;
                 children := alter (λ l, n :: unlink n l) p (children sc) |}
  | None => sc
  end.

(** wlroots, [wlr_scene_node_destroy]: the node and the nodes below it leave
    the scene. *)
Definition wlr_scene_node_destroy (n : node_ref) (sc : scene) : scene :=
  let dead m := is_under sc (size (nodes sc)) n m in
  {| nodes := filter (λ kv, dead kv.1 = false) (nodes sc);
     children := filter (λ m, dead m = false)
                   <$> filter (λ kv, dead kv.1 = false) (children sc) |}.

(** Modelled from the spec: [lab_wlr_scene_get_prev_node] of
    [common/scene-helpers.c], which is not among the sources: the node
    immediately preceding [n] in the scene stack of its parent, [None] for
    the first one. *)
Fixpoint prev_in (n : node_ref) (l : list node_ref) : option node_ref :=
  match l with
  | m :: (m' :: _) as rest =>
      if bool_decide (m' = n) then Some m else prev_in n rest
  | _ => None
  end.

Definition lab_wlr_scene_get_prev_node (sc : scene) (n : node_ref)
  : option node_ref :=
  p ← parent_of sc n; prev_in n (children_of sc p).

(** ** Window switcher (osd.c) *)

(** [matches_criteria(view, rc.window_switcher.criteria)] *)
Definition matches_criteria (s : server) (v : view_ref) : bool :=
  match view_table s !! v with
  | Some vw => cycle_candidate vw
  | None => false
  end.

(** The views linked before and after [v] in the list. *)
Fixpoint split_at (v : view_ref) (l : list view_ref)
  : option (list view_ref * list view_ref) :=
  match l with
  | [] => None
  | w :: rest =>
      if bool_decide (w = v) then Some ([], rest)
      else '(pre, post) ← split_at v rest; Some (w :: pre, post)
  end.

(** Modelled from the spec: [view_next_no_head_stop] of [view.c], which is
    not among the sources; the "next, no stop at head" iteration over the
    stacking-ordered list of views.  From [from] (from the head of the list
    when [from] is [NULL]) it walks towards the bottom of the stack, passes
    over the head of the list back to the topmost view, and returns the
    first view that matches the criteria; when it is back where it started
    it returns [from]. *)
Definition view_next_no_head_stop (head : list view_ref)
    (from : option view_ref) (criteria : view_ref → bool) : option view_ref :=
  match from with
  | None => find criteria head
  | Some v =>
      match split_at v head with
      | Some (pre, post) =>
          match find criteria (post ++ pre) with
          | Some w => Some w
          | None => from
          end
      | None => from
      end
  end.

(** Modelled from the spec: [view_prev_no_head_stop] of [view.c], the same
    iteration towards the top of the stack. *)
Definition view_prev_no_head_stop (head : list view_ref)
    (from : option view_ref) (criteria : view_ref → bool) : option view_ref :=
  match from with
  | None => find criteria (rev head)
  | Some v =>
      match split_at v head with
      | Some (pre, post) =>
          match find criteria (rev pre ++ rev post) with
          | Some w => Some w
          | None => from
          end
      | None => from
      end
  end.

(** [get_next_cycle_view], osd.c: the view to select next in the window
    switcher. *)
Definition get_next_cycle_view (s : server) (start_view : option view_ref)
    (dir : lab_cycle_dir) : option view_ref :=
  let forwards :=
    match dir with LAB_CYCLE_DIR_FORWARD => true | _ => false end in
  let iter := if forwards then view_next_no_head_stop
              else view_prev_no_head_stop in
  let criteria := matches_criteria s in
  let start_view :=
    match start_view with
    | None => if forwards then iter (views s) None criteria else start_view
    | Some _ => start_view
    end in
  iter (views s) start_view criteria.

Definition set_osd (o : osd_state) (s : server) : server :=
  {| input_mode := input_mode s; grabbed_view := grabbed_view s;
     grab_x := grab_x s; grab_y := grab_y s; grab_box := grab_box s;
     seat_cursor := seat_cursor s; nearest_output := nearest_output s;
     views := views s; view_table := view_table s; osd := o;
     server_scene := server_scene s |}.

Definition set_scene (sc : scene) (s : server) : server :=
  {| input_mode := input_mode s; grabbed_view := grabbed_view s;
     grab_x := grab_x s; grab_y := grab_y s; grab_box := grab_box s;
     seat_cursor := seat_cursor s; nearest_output := nearest_output s;
     views := views s; view_table := view_table s; osd := osd s;
     server_scene := sc |}.

Definition set_input_mode (m : input_state) (s : server) : server :=
  {| input_mode := m; grabbed_view := grabbed_view s;
     grab_x := grab_x s; grab_y := grab_y s; grab_box := grab_box s;
     seat_cursor := seat_cursor s; nearest_output := nearest_output s;
     views := views s; view_table := view_table s; osd := osd s;
     server_scene := server_scene s |}.

Definition set_cycle_view (v : option view_ref) (o : osd_state) : osd_state :=
  {| cycle_view := v; preview_was_enabled := preview_was_enabled o;
     preview_node := preview_node o; preview_parent := preview_parent o;
     preview_anchor := preview_anchor o;
     preview_outline := preview_outline o |}.

Definition set_preview_anchor (a : option node_ref) (o : osd_state)
  : osd_state :=
  {| cycle_view := cycle_view o; preview_was_enabled := preview_was_enabled o;
     preview_node := preview_node o; preview_parent := preview_parent o;
     preview_anchor := a; preview_outline := preview_outline o |}.

(** Modelled from the spec: [seat_focus_override_begin] of [seat.c], which
    is not among the sources: it switches the input mode for the duration of
    the override. *)
Definition seat_focus_override_begin (m : input_state) (s : server) : server :=
  set_input_mode m s.

(** Modelled from the spec: [seat_focus_override_end] of [seat.c], which is
    not among the sources: it ends the override, the input mode is idle
    again. *)
Definition seat_focus_override_end (s : server) : server :=
  set_input_mode LAB_INPUT_STATE_PASSTHROUGH s.

(** [restore_preview_node], osd.c. *)
Definition restore_preview_node (s : server) : option server :=
  match preview_node (osd s) with
  | Some n =>
      sc ← wlr_scene_node_reparent n (preview_parent (osd s))
             (server_scene s);
      sc ← match preview_anchor (osd s) with
           | Some a => wlr_scene_node_place_above n a sc
           | None =>
               (* Selected view was the first node *)
               Some (wlr_scene_node_lower_to_bottom n sc)
           end;
      (* Node was disabled / minimized before, disable again *)
      let sc := if negb (preview_was_enabled (osd s))
                then wlr_scene_node_set_enabled n false sc else sc in
      Some (set_osd {| cycle_view := cycle_view (osd s);
                       preview_was_enabled := preview_was_enabled (osd s);
                       preview_node := None; preview_parent := None;
                       preview_anchor := None;
                       preview_outline := preview_outline (osd s) |}
              (set_scene sc s))
  | None => Some s
  end.

(** [osd_finish], osd.c. *)
Definition osd_finish (s : server) : option server :=
  s ← restore_preview_node s;
  let s := seat_focus_override_end s in
  let s := set_osd {| cycle_view := None;
                      preview_was_enabled := preview_was_enabled (osd s);
                      preview_node := None;
                      preview_parent := preview_parent (osd s);
                      preview_anchor := None;
                      preview_outline := preview_outline (osd s) |} s in
  match preview_outline (osd s) with
  | Some o =>
      (* Destroy the whole multi_rect so we can easily react to new themes *)
      let s := set_scene (wlr_scene_node_destroy o (server_scene s)) s in
      Some (set_osd {| cycle_view := cycle_view (osd s);
                       preview_was_enabled := preview_was_enabled (osd s);
                       preview_node := preview_node (osd s);
                       preview_parent := preview_parent (osd s);
                       preview_anchor := preview_anchor (osd s);
                       preview_outline := None |} s)
  | None => Some s
  end.

(** [osd_begin], osd.c. *)
Definition osd_begin (s : server) (direction : lab_cycle_dir) : server :=
  if negb (bool_decide (input_mode s = LAB_INPUT_STATE_PASSTHROUGH)) then s
  else
    let s := set_osd (set_cycle_view
                        (get_next_cycle_view s (cycle_view (osd s)) direction)
                        (osd s)) s in
    seat_focus_override_begin LAB_INPUT_STATE_WINDOW_SWITCHER s.

(** [osd_cycle], osd.c; [None] when the assertion on the input mode fails. *)
Definition osd_cycle (s : server) (direction : lab_cycle_dir) : option server :=
  if negb (bool_decide (input_mode s = LAB_INPUT_STATE_WINDOW_SWITCHER))
  then None
  else Some (set_osd (set_cycle_view
                        (get_next_cycle_view s (cycle_view (osd s)) direction)
                        (osd s)) s).

(** [osd_on_view_destroy], osd.c, for the view behind the handle [v]. *)
Definition osd_on_view_destroy (s : server) (v : view_ref) : option server :=
  if negb (bool_decide (input_mode s = LAB_INPUT_STATE_WINDOW_SWITCHER)) then
    (* OSD not active, no need for clean up *)
    Some s
  else
    s ← (if bool_decide (cycle_view (osd s) = Some v) then
           (* If we are the current OSD selected view, cycle to the next
              because we are dying. *)
           let next := get_next_cycle_view s (cycle_view (osd s))
                         LAB_CYCLE_DIR_BACKWARD in
           let s := set_osd (set_cycle_view next (osd s)) s in
           (* If we cycled back to ourselves, then we have no more windows.
              Just close the OSD for good. *)
           if bool_decide (cycle_view (osd s) = Some v)
              || bool_decide (cycle_view (osd s) = None)
           then osd_finish s
           else Some s
         else Some s);
    match view_table s !! v ≫= scene_tree with
    | Some node =>
        if ptr_eqb (preview_anchor (osd s)) (Some node) then
          (* If we are the anchor for the current OSD selected view, replace
             the anchor with the node before us. *)
          Some (set_osd (set_preview_anchor
                           (lab_wlr_scene_get_prev_node (server_scene s) node)
                           (osd s)) s)
        else Some s
    | None => Some s
    end.

(** ** Definitions the properties are stated with *)

Definition button_types : list ssd_part_type :=
  [LAB_SSD_BUTTON_CLOSE; LAB_SSD_BUTTON_MAXIMIZE; LAB_SSD_BUTTON_ICONIFY;
   LAB_SSD_BUTTON_WINDOW_ICON; LAB_SSD_BUTTON_OMNIPRESENT].

(** The parts [whole] contains besides itself: everything for
    [LAB_SSD_ALL]; the buttons for the group [LAB_SSD_BUTTON]; the buttons,
    their group and the title for the titlebar; the titlebar for the title;
    the two adjacent corners for an edge; everything from the close button
    to the client area for the frame; nothing for any other part. *)
Definition documented_parts (whole : ssd_part_type) : list ssd_part_type :=
  match whole with
  | LAB_SSD_BUTTON => button_types
  | LAB_SSD_PART_TITLEBAR =>
      button_types ++ [LAB_SSD_BUTTON; LAB_SSD_PART_TITLE]
  | LAB_SSD_PART_TITLE => [LAB_SSD_PART_TITLEBAR]
  | LAB_SSD_PART_TOP =>
      [LAB_SSD_PART_CORNER_TOP_LEFT; LAB_SSD_PART_CORNER_TOP_RIGHT]
  | LAB_SSD_PART_RIGHT =>
      [LAB_SSD_PART_CORNER_TOP_RIGHT; LAB_SSD_PART_CORNER_BOTTOM_RIGHT]
  | LAB_SSD_PART_BOTTOM =>
      [LAB_SSD_PART_CORNER_BOTTOM_RIGHT; LAB_SSD_PART_CORNER_BOTTOM_LEFT]
  | LAB_SSD_PART_LEFT =>
      [LAB_SSD_PART_CORNER_TOP_LEFT; LAB_SSD_PART_CORNER_BOTTOM_LEFT]
  | LAB_SSD_FRAME =>
      button_types
      ++ [LAB_SSD_BUTTON; LAB_SSD_PART_TITLEBAR; LAB_SSD_PART_TITLE;
          LAB_SSD_PART_CORNER_TOP_LEFT; LAB_SSD_PART_CORNER_TOP_RIGHT;
          LAB_SSD_PART_CORNER_BOTTOM_RIGHT; LAB_SSD_PART_CORNER_BOTTOM_LEFT;
          LAB_SSD_PART_TOP; LAB_SSD_PART_RIGHT; LAB_SSD_PART_BOTTOM;
          LAB_SSD_PART_LEFT; LAB_SSD_CLIENT]
  | _ => []
  end.

Definition documented_contains (whole candidate : ssd_part_type) : Prop :=
  whole = candidate ∨ whole = LAB_SSD_ALL
  ∨ candidate ∈ documented_parts whole.

#[global] Instance documented_contains_dec whole candidate :
  Decision (documented_contains whole candidate).
Proof. unfold documented_contains. apply _. Defined.

(** [clamp(v, lo, hi)] of the specification. *)
Definition clamp (v lo hi : Z) : Z := Z.max lo (Z.min v hi).

(** The classification of the specification for a cursor that is not inside
    the box, with corner zones of the given width and height: the cursor is
    compared, strictly, with the bounds of the box offset by the size of the
    zone; the four corners come first, then the four edges. *)
Definition classify_zones (box : wlr_box) (zone_width zone_height : Z)
    (c : wlr_cursor) : ssd_part_type :=
  let left := (cursor_x c <? of_int (x box + zone_width))%D in
  let right := (cursor_x c >? of_int (x box + width box - zone_width))%D in
  let top := (cursor_y c <? of_int (y box + zone_height))%D in
  let bottom :=
    (cursor_y c >? of_int (y box + height box - zone_height))%D in
  if top && left then LAB_SSD_PART_CORNER_TOP_LEFT
  else if top && right then LAB_SSD_PART_CORNER_TOP_RIGHT
  else if bottom && left then LAB_SSD_PART_CORNER_BOTTOM_LEFT
  else if bottom && right then LAB_SSD_PART_CORNER_BOTTOM_RIGHT
  else if top then LAB_SSD_PART_TOP
  else if bottom then LAB_SSD_PART_BOTTOM
  else if left then LAB_SSD_PART_LEFT
  else if right then LAB_SSD_PART_RIGHT
  else LAB_SSD_NONE.

(** The [int]s [get_resizing_type] reads from the view and computes for its
    box are in the range of [int], the right and the bottom bound of the
    box among them: no sum of the function overflows. *)
Definition view_box_in_range (v : view) : Prop :=
  let box := view_box_of v in
  int_range (y (current v))
  ∧ int_range (effective_height v)
  ∧ int_range (titlebar_height v)
  ∧ int_range (x box) ∧ int_range (y box)
  ∧ int_range (width box) ∧ int_range (height box)
  ∧ int_range (x box + width box)
  ∧ int_range (y box + height box).

(** The [int]s [edge_from_cursor] reads from the output and the
    configuration and the margins it computes from them are in the range of
    [int]: no sum of the function overflows. *)
Definition snap_margins_in_range (rc : rcxml) (o : output) : Prop :=
  let area := usable_area o in
  let range := snap_edge_range rc in
  int_range range
  ∧ int_range (layout_x o) ∧ int_range (layout_y o)
  ∧ int_range (x area) ∧ int_range (y area)
  ∧ int_range (width area) ∧ int_range (height area)
  ∧ int_range (x area + range)
  ∧ int_range (x area + width area)
  ∧ int_range (x area + width area - range)
  ∧ int_range (y area + range)
  ∧ int_range (y area + height area)
  ∧ int_range (y area + height area - range).

(** The sub-trees [ssd_set_active] enables for an active window, and the
    ones it enables for an inactive one. *)
Definition active_trees (d : ssd) : list node_ref :=
  omap id [tree (border_active d); tree (titlebar_active d);
           tree (shadow_active d)].

Definition inactive_trees (d : ssd) : list node_ref :=
  omap id [tree (border_inactive d); tree (titlebar_inactive d);
           tree (shadow_inactive d)].

Definition in_scene (sc : scene) (n : node_ref) : Prop :=
  is_Some (nodes sc !! n).

(** The sub-trees of a decoration are nodes of the scene, and no active
    sub-tree is an inactive one. *)
Definition ssd_trees_wf (sc : scene) (d : ssd) : Prop :=
  is_Some (tree (border_active d))
  ∧ is_Some (tree (titlebar_active d))
  ∧ is_Some (tree (border_inactive d))
  ∧ is_Some (tree (titlebar_inactive d))
  ∧ Forall (in_scene sc) (active_trees d ++ inactive_trees d)
  ∧ active_trees d ## inactive_trees d.

(** The mantissa and the exponent of [(double) p]. *)
Definition int_mantissa (p : positive) : positive :=
  Pos.iter xO p (Z.to_pos (53 - Z.pos (digits2_pos p))).

Definition int_exponent (p : positive) : Z := Z.pos (digits2_pos p) - 53.

(** The position [cursor - new_size * ((cursor - old_pos) / old_size)] of
    the specification, computed in doubles as the source does. *)
Definition anchor_scale (cursor : double) (old_pos old_size new_size : Z)
  : double :=
  (cursor
   - of_int new_size * ((cursor - of_int old_pos) / of_int old_size))%D.

(** The recorded preview can be restored: the previewed node is in the
    scene, its recorded parent is not below it, and the recorded anchor is
    another child of that parent. *)
Definition preview_wf (s : server) : Prop :=
  match preview_node (osd s) with
  | None => True
  | Some n =>
      let sc := server_scene s in
      in_scene sc n
      ∧ ∃ p,
          preview_parent (osd s) = Some p
          ∧ (parent_of sc n = Some p
             ∨ is_under sc (size (nodes sc)) n p = false)
          ∧ match preview_anchor (osd s) with
            | None => True
            | Some a =>
                a ≠ n ∧ parent_of sc a = Some p ∧ a ∈ children_of sc p
            end
  end.

(** ** States and inputs of the examples *)

(** A decorated window of 40 by 40 at the origin, its titlebar hidden. *)
Definition small_view : view :=
  {| current := {| x := 0; y := 0; width := 40; height := 40 |};
     effective_height := 40; ssd_enabled := true; fullscreen := false;
     ssd_titlebar_hidden := true; titlebar_height := 0; floating := true;
     scene_tree := None; cycle_candidate := true |}.

Definition empty_sub_tree : ssd_sub_tree := {| tree := None; parts := [] |}.

Definition ssd_of_view (v : view) : ssd :=
  {| ssd_view := Some v; ssd_tree := None; extents := empty_sub_tree;
     titlebar_active := empty_sub_tree; titlebar_inactive := empty_sub_tree;
     border_active := empty_sub_tree; border_inactive := empty_sub_tree;
     shadow_active := empty_sub_tree; shadow_inactive := empty_sub_tree |}.

Definition wide_range : rcxml :=
  {| resize_corner_range := 10000; snap_edge_range := 10;
     snap_top_maximize := false |}.

Definition cursor_at (ax ay : Z) : wlr_cursor :=
  {| cursor_x := of_int ax; cursor_y := of_int ay |}.

(** A decoration whose active border tree is the node 1; the border holds
    one part, the top edge, shown by the node 2.  The node 3 is another
    child of the border tree that no part stores. *)
Definition border_scene : scene :=
  {| nodes :=
       list_to_map
         [(1, mk_node WLR_SCENE_NODE_TREE None true false);
          (2, mk_node WLR_SCENE_NODE_RECT (Some 1) true false);
          (3, mk_node WLR_SCENE_NODE_RECT (Some 1) true false)]%positive;
     children := {[ 1%positive := [2%positive; 3%positive] ]} |}.

Definition border_ssd : ssd :=
  {| ssd_view := Some small_view; ssd_tree := Some 9%positive;
     extents := {| tree := Some 10%positive; parts := [] |};
     titlebar_active := {| tree := Some 11%positive; parts := [] |};
     titlebar_inactive := {| tree := Some 12%positive; parts := [] |};
     border_active :=
       {| tree := Some 1%positive;
          parts := [ {| part_type := LAB_SSD_PART_TOP;
                        part_node := Some 2%positive |} ] |};
     border_inactive := {| tree := Some 13%positive; parts := [] |};
     shadow_active := empty_sub_tree; shadow_inactive := empty_sub_tree |}.

(** A decorated window with both borders and both titlebars in the scene,
    and an active shadow. *)
Definition deco_scene : scene :=
  {| nodes :=
       list_to_map
         [(1, mk_node WLR_SCENE_NODE_TREE None true false);
          (2, mk_node WLR_SCENE_NODE_TREE (Some 1) false false);
          (3, mk_node WLR_SCENE_NODE_TREE (Some 1) true false);
          (4, mk_node WLR_SCENE_NODE_TREE (Some 1) false false);
          (5, mk_node WLR_SCENE_NODE_TREE (Some 1) true false);
          (6, mk_node WLR_SCENE_NODE_TREE (Some 1) false false)]%positive;
     children :=
       {[ 1%positive := [2; 3; 4; 5; 6]%positive ]} |}.

Definition deco_ssd : ssd :=
  {| ssd_view := Some small_view; ssd_tree := Some 1%positive;
     extents := empty_sub_tree;
     titlebar_active := {| tree := Some 2%positive; parts := [] |};
     titlebar_inactive := {| tree := Some 3%positive; parts := [] |};
     border_active := {| tree := Some 4%positive; parts := [] |};
     border_inactive := {| tree := Some 5%positive; parts := [] |};
     shadow_active := {| tree := Some 6%positive; parts := [] |};
     shadow_inactive := empty_sub_tree |}.

(** The view with handle 1 is grabbed; the nearest output is usable, lies
    at the origin of the layout, and has a usable area of 1000 by 800. *)
Definition snap_output : output :=
  {| usable := true;
     usable_area := {| x := 0; y := 0; width := 1000; height := 800 |};
     layout_x := 0; layout_y := 0 |}.

Definition empty_scene : scene := {| nodes := ∅; children := ∅ |}.

Definition idle_osd : osd_state :=
  {| cycle_view := None; preview_was_enabled := true; preview_node := None;
     preview_parent := None; preview_anchor := None;
     preview_outline := None |}.

Definition snap_server (is_floating : bool) (c : wlr_cursor) : server :=
  {| input_mode := LAB_INPUT_STATE_MOVE;
     grabbed_view := Some 1%positive;
     grab_x := of_int 0; grab_y := of_int 0;
     grab_box := {| x := 0; y := 0; width := 200; height := 100 |};
     seat_cursor := c;
     nearest_output := Some snap_output;
     views := [1%positive];
     view_table :=
       {[ 1%positive :=
            {| current := {| x := 0; y := 0; width := 200; height := 100 |};
               effective_height := 100; ssd_enabled := true;
               fullscreen := false; ssd_titlebar_hidden := false;
               titlebar_height := 20; floating := is_floating;
               scene_tree := None; cycle_candidate := true |} ]};
     osd := idle_osd;
     server_scene := empty_scene |}.

Definition snap_rc (top_maximize : bool) : rcxml :=
  {| resize_corner_range := 8; snap_edge_range := 10;
     snap_top_maximize := top_maximize |}.

(** A window of 200 by 100 at the origin, grabbed at (150, 50). *)
Definition anchor_server : server :=
  {| input_mode := LAB_INPUT_STATE_MOVE;
     grabbed_view := Some 1%positive;
     grab_x := of_int 150; grab_y := of_int 50;
     grab_box := {| x := 0; y := 0; width := 200; height := 100 |};
     seat_cursor := cursor_at 150 50;
     nearest_output := Some snap_output;
     views := [1%positive];
     view_table := ∅;
     osd := idle_osd;
     server_scene := empty_scene |}.

(** A server with the views [vs], every one of them a candidate of the
    window switcher, no scene and no selection. *)
Definition plain_view : view :=
  {| current := {| x := 0; y := 0; width := 200; height := 100 |};
     effective_height := 100; ssd_enabled := true; fullscreen := false;
     ssd_titlebar_hidden := false; titlebar_height := 20; floating := true;
     scene_tree := None; cycle_candidate := true |}.

Definition cycle_server (vs : list view_ref) : server :=
  {| input_mode := LAB_INPUT_STATE_PASSTHROUGH;
     grabbed_view := None;
     grab_x := of_int 0; grab_y := of_int 0;
     grab_box := {| x := 0; y := 0; width := 0; height := 0 |};
     seat_cursor := cursor_at 0 0;
     nearest_output := None;
     views := vs;
     view_table := list_to_map ((λ v, (v, plain_view)) <$> vs);
     osd := idle_osd;
     server_scene := empty_scene |}.

(** The window switcher shows the only view, 1, whose node 12 was moved
    from the tree 10, where it was right above the node 11 and disabled,
    into the preview tree 20. *)
Definition preview_scene : scene :=
  {| nodes :=
       list_to_map
         [(10, mk_node WLR_SCENE_NODE_TREE None true false);
          (11, mk_node WLR_SCENE_NODE_TREE (Some 10) true false);
          (12, mk_node WLR_SCENE_NODE_TREE (Some 20) true false);
          (20, mk_node WLR_SCENE_NODE_TREE None true false)]%positive;
     children := list_to_map [(10, [11]); (20, [12])]%positive |}.

Definition preview_server : server :=
  {| input_mode := LAB_INPUT_STATE_WINDOW_SWITCHER;
     grabbed_view := None;
     grab_x := of_int 0; grab_y := of_int 0;
     grab_box := {| x := 0; y := 0; width := 0; height := 0 |};
     seat_cursor := cursor_at 0 0;
     nearest_output := None;
     views := [1%positive];
     view_table :=
       {[ 1%positive :=
            {| current := {| x := 0; y := 0; width := 200; height := 100 |};
               effective_height := 100; ssd_enabled := true;
               fullscreen := false; ssd_titlebar_hidden := false;
               titlebar_height := 20; floating := true;
               scene_tree := Some 12%positive; cycle_candidate := true |} ]};
     osd := {| cycle_view := Some 1%positive; preview_was_enabled := false;
               preview_node := Some 12%positive;
               preview_parent := Some 10%positive;
               preview_anchor := Some 11%positive;
               preview_outline := None |};
     server_scene := preview_scene |}.

(** ** Resize edges, decoration modes and debug names (ssd.c) *)

(** wlroots, [enum wlr_edges]: one bit per edge. *)
Definition WLR_EDGE_NONE : Z := 0.
Definition WLR_EDGE_TOP : Z := 1.
Definition WLR_EDGE_BOTTOM : Z := 2.
Definition WLR_EDGE_LEFT : Z := 4.
Definition WLR_EDGE_RIGHT : Z := 8.

(** [ssd_resize_edges], ssd.c. *)
Definition ssd_resize_edges (type : ssd_part_type) : Z :=
  match type with
  | LAB_SSD_PART_TOP => WLR_EDGE_TOP
  | LAB_SSD_PART_RIGHT => WLR_EDGE_RIGHT
  | LAB_SSD_PART_BOTTOM => WLR_EDGE_BOTTOM
  | LAB_SSD_PART_LEFT => WLR_EDGE_LEFT
  | LAB_SSD_PART_CORNER_TOP_LEFT => Z.lor WLR_EDGE_TOP WLR_EDGE_LEFT
  | LAB_SSD_PART_CORNER_TOP_RIGHT => Z.lor WLR_EDGE_RIGHT WLR_EDGE_TOP
  | LAB_SSD_PART_CORNER_BOTTOM_RIGHT => Z.lor WLR_EDGE_BOTTOM WLR_EDGE_RIGHT
  | LAB_SSD_PART_CORNER_BOTTOM_LEFT => Z.lor WLR_EDGE_BOTTOM WLR_EDGE_LEFT
  | _ => WLR_EDGE_NONE
  end.

(** The eight parts a resize can start from. *)
Definition resize_parts : list ssd_part_type :=
  [LAB_SSD_PART_TOP; LAB_SSD_PART_RIGHT; LAB_SSD_PART_BOTTOM;
   LAB_SSD_PART_LEFT; LAB_SSD_PART_CORNER_TOP_LEFT;
   LAB_SSD_PART_CORNER_TOP_RIGHT; LAB_SSD_PART_CORNER_BOTTOM_RIGHT;
   LAB_SSD_PART_CORNER_BOTTOM_LEFT].

(** The sub-trees whose parts [ssd_get_part_type] looks through. *)
Definition searched_sub_trees (d : ssd) : list ssd_sub_tree :=
  [titlebar_active d; border_active d; titlebar_inactive d;
   border_inactive d].

(** The parent, the grandparent and the great-grandparent of a node. *)
Definition ancestors3 (sc : scene) (node : node_ref)
  : list (option node_ref) :=
  let parent := parent_of sc node in
  let grandparent := parent ≫= parent_of sc in
  let greatgrandparent := grandparent ≫= parent_of sc in
  [parent; grandparent; greatgrandparent].

(** The trees [ssd_debug_get_node_name] has a name for. *)
Definition named_trees (d : ssd) : list (option node_ref) :=
  [ssd_tree d; tree (titlebar_active d); tree (titlebar_inactive d);
   tree (border_active d); tree (border_inactive d); tree (extents d)].

(** ** C strings

    A C string is a [string]: the characters before the terminating NUL, so
    none of them is NUL. *)

Definition char_code (c : ascii) : Z := Z.of_N (N_of_ascii c).

Definition is_c_string (s : string) : Prop :=
  Forall (λ c, char_code c ≠ 0) (list_ascii_of_string s).

(** libc, [tolower] in the C locale. *)
Definition tolower (c : ascii) : ascii :=
  if (65 <=? char_code c) && (char_code c <=? 90)
  then ascii_of_N (N_of_ascii c + 32) else c.

(** libc, [strcasecmp]: the difference of the first two characters that
    differ when case is ignored, the end of a string counting as NUL. *)
Fixpoint strcasecmp (l r : string) : Z :=
  match l, r with
  | EmptyString, EmptyString => 0
  | EmptyString, String d _ => 0 - char_code (tolower d)
  | String c _, EmptyString => char_code (tolower c) - 0
  | String c l', String d r' =>
      if bool_decide (tolower c = tolower d) then strcasecmp l' r'
      else char_code (tolower c) - char_code (tolower d)
  end.

(** libc, [toupper] in the C locale. *)
Definition toupper (c : ascii) : ascii :=
  if (97 <=? char_code c) && (char_code c <=? 122)
  then ascii_of_N (N_of_ascii c - 32) else c.

Fixpoint string_map (f : ascii → ascii) (s : string) : string :=
  match s with
  | EmptyString => EmptyString
  | String c s' => String (f c) (string_map f s')
  end.

Definition string_lower : string → string := string_map tolower.
Definition string_upper : string → string := string_map toupper.

(** Every character of [s] satisfies [p]. *)
Fixpoint string_forall (p : ascii → bool) (s : string) : bool :=
  match s with
  | EmptyString => true
  | String c s' => p c && string_forall p s'
  end.

Definition is_digit (c : ascii) : bool :=
  (48 <=? char_code c) && (char_code c <=? 57).

(** The number a string of decimal digits denotes. *)
Fixpoint decimal_from (acc : Z) (s : string) : Z :=
  match s with
  | EmptyString => acc
  | String c s' => decimal_from (10 * acc + (char_code c - 48)) s'
  end.

Definition decimal_value (s : string) : Z := decimal_from 0 s.

(** [enum ssd_mode], by the enumerators ssd.c names. *)
Inductive ssd_mode : Type :=
  | LAB_SSD_MODE_NONE
  | LAB_SSD_MODE_BORDER
  | LAB_SSD_MODE_FULL
  | LAB_SSD_MODE_INVALID.

(** [ssd_mode_parse], ssd.c. *)
Definition ssd_mode_parse (mode : option string) : ssd_mode :=
  match mode with
  | None => LAB_SSD_MODE_INVALID
  | Some mode =>
      if strcasecmp mode "none" =? 0 then LAB_SSD_MODE_NONE
      else if strcasecmp mode "border" =? 0 then LAB_SSD_MODE_BORDER
      else if strcasecmp mode "full" =? 0 then LAB_SSD_MODE_FULL
      else LAB_SSD_MODE_INVALID
  end.

(** [ssd_debug_is_root_node], ssd.c. *)
Definition ssd_debug_is_root_node (s : option ssd) (node : option node_ref)
  : bool :=
  match s, node with
  | Some d, Some n => ptr_eqb (Some n) (ssd_tree d)
  | _, _ => false
  end.

(** [ssd_debug_get_node_name], ssd.c. *)
Definition ssd_debug_get_node_name (s : option ssd) (node : option node_ref)
  : option string :=
  match s, node with
  | Some d, Some n =>
      if ptr_eqb (Some n) (ssd_tree d) then Some "view->ssd"%string
      else if ptr_eqb (Some n) (tree (titlebar_active d)) then
        Some "titlebar.active"%string
      else if ptr_eqb (Some n) (tree (titlebar_inactive d)) then
        Some "titlebar.inactive"%string
      else if ptr_eqb (Some n) (tree (border_active d)) then
        Some "border.active"%string
      else if ptr_eqb (Some n) (tree (border_inactive d)) then
        Some "border.inactive"%string
      else if ptr_eqb (Some n) (tree (extents d)) then Some "extents"%string
      else None
  | _, _ => None
  end.

(** ** Workspaces (workspaces.c) *)

(** libc, [isspace] in the C locale. *)
Definition isspace (c : ascii) : bool :=
  (char_code c =? 32) || ((9 <=? char_code c) && (char_code c <=? 13)).

(** The value of a decimal digit. *)
Definition digit_value (c : ascii) : option Z :=
  if (48 <=? char_code c) && (char_code c <=? 57)
  then Some (char_code c - 48) else None.

Fixpoint skip_spaces (s : string) : string :=
  match s with
  | String c s' => if isspace c then skip_spaces s' else s
  | EmptyString => s
  end.

(** The number read from the digits [s] starts with, after [acc], and what
    follows them. *)
Fixpoint read_digits (acc : Z) (s : string) : Z * string :=
  match s with
  | String c s' =>
      match digit_value c with
      | Some d => read_digits (10 * acc + d) s'
      | None => (acc, s)
      end
  | EmptyString => (acc, s)
  end.

(** [long] has 64 bits. *)
Definition LONG_MAX : Z := 2 ^ 63 - 1.
Definition LONG_MIN : Z := - 2 ^ 63.

(** libc, [strtol(nptr, &endptr, 10)]: the value, whether [errno] is set
    to [ERANGE], and the string [endptr] points to.  White space is
    skipped, a sign is optional; without a digit nothing is converted and
    [endptr] is [nptr]; a value that is no [long] is clamped. *)
Definition strtol (nptr : string) : Z * bool * string :=
  let s := skip_spaces nptr in
  let '(negative, s) :=
    match s with
    | String "-" s' => (true, s')
    | String "+" s' => (false, s')
    | _ => (false, s)
    end in
  match s with
  | String c _ =>
      match digit_value c with
      | Some _ =>
          let '(n, rest) := read_digits 0 s in
          let n := if negative then - n else n in
          if LONG_MAX <? n then (LONG_MAX, true, rest)
          else if n <? LONG_MIN then (LONG_MIN, true, rest)
          else (n, false, rest)
      | None => (0, false, nptr)
      end
  | EmptyString => (0, false, nptr)
  end.

(** [parse_workspace_index], workspaces.c. *)
Definition parse_workspace_index (name : string) : Z :=
  let '(index, errno, endptr) := strtol name in
  if errno || negb (bool_decide (endptr = ""%string)) || (index <? 0) then 0
  else index.

Definition workspace_ref : Type := positive.

(** The fields of [struct workspace] that the lookup reads. *)
Record workspace : Type := mk_workspace {
  workspace_name : string;
  workspace_tree : option node_ref
}.

(** [server->workspaces]: the list [all] in order, [current] and [last],
    and the workspaces behind the handles. *)
Record workspaces : Type := mk_workspaces {
  workspaces_all : list workspace_ref;
  workspaces_current : option workspace_ref;
  workspaces_last : option workspace_ref;
  workspace_table : gmap workspace_ref workspace
}.

(** [get_prev], workspaces.c; [None] also for a workspace that is not
    linked in the list. *)
Definition get_prev (current : workspace_ref)
    (workspaces : list workspace_ref) (wrap : bool) : option workspace_ref :=
  match split_at current workspaces with
  | Some (before, _) =>
      match last before with
      | Some target => Some target
      | None =>
          (* Current workspace is the first one *)
          if negb wrap then None
          else (* Roll over *) last workspaces
      end
  | None => None
  end.

(** [get_next], workspaces.c; [None] also for a workspace that is not
    linked in the list. *)
Definition get_next (current : workspace_ref)
    (workspaces : list workspace_ref) (wrap : bool) : option workspace_ref :=
  match split_at current workspaces with
  | Some (_, after) =>
      match head after with
      | Some target => Some target
      | None =>
          (* Current workspace is the last one *)
          if negb wrap then None
          else (* Roll over *) head workspaces
      end
  | None => None
  end.

(** [strcasecmp(target->name, name) == 0] for the workspace behind [t]. *)
Definition workspace_named (w : workspaces) (name : string)
    (t : workspace_ref) : bool :=
  match workspace_table w !! t with
  | Some target => strcasecmp (workspace_name target) name =? 0
  | None => false
  end.

(** The first loop of [workspaces_find]: the workspace at which the
    counter [index], incremented before it is compared, equals
    [wants_index]. *)
Fixpoint workspace_at (wants_index index : Z) (l : list workspace_ref)
  : option workspace_ref :=
  match l with
  | [] => None
  | target :: rest =>
      let index := index + 1 in
      if wants_index =? index then Some target
      else workspace_at wants_index index rest
  end.

(** [workspaces_find], workspaces.c, over the workspaces [w] of the server
    of [anchor]. *)
Definition workspaces_find (w : workspaces) (anchor : workspace_ref)
    (name : option string) (wrap : bool) : option workspace_ref :=
  match name with
  | None => None
  | Some name =>
      let wants_index := parse_workspace_index name in
      if negb (wants_index =? 0) then
        workspace_at wants_index 0 (workspaces_all w)
      else if strcasecmp name "current" =? 0 then Some anchor
      else if strcasecmp name "last" =? 0 then workspaces_last w
      else if strcasecmp name "left" =? 0 then
        get_prev anchor (workspaces_all w) wrap
      else if strcasecmp name "right" =? 0 then
        get_next anchor (workspaces_all w) wrap
      else find (workspace_named w name) (workspaces_all w)
  end.

(** The words [workspaces_find] gives a meaning of their own. *)
Definition workspace_keywords : list string :=
  ["current"; "last"; "left"; "right"]%string.

Definition three_workspaces : workspaces :=
  {| workspaces_all := [5; 6; 7]%positive;
     workspaces_current := Some 5%positive;
     workspaces_last := Some 7%positive;
     workspace_table :=
       {[ 5%positive := {| workspace_name := "2"; workspace_tree := None |};
          6%positive := {| workspace_name := "Mail"; workspace_tree := None |};
          7%positive := {| workspace_name := "left"; workspace_tree := None |}
       ]} |}.

(** * Properties *)

(** ** Part taxonomy *)

Lemma ssd_part_contains_documented whole candidate :
  ssd_part_contains whole candidate
  = bool_decide (documented_contains whole candidate).
Proof. destruct whole, candidate; vm_compute; reflexivity. Qed.

Lemma ssd_part_contains_iff whole candidate :
  ssd_part_contains whole candidate = true
  ↔ documented_contains whole candidate.
Proof. rewrite ssd_part_contains_documented. apply bool_decide_eq_true. Qed.

(** C7.  [ssd_part_contains] is a total predicate on pairs of part types;
    every part contains itself; [LAB_SSD_ALL] contains every part; the title
    contains the titlebar, and as the titlebar contains the title too while
    [LAB_SSD_ALL] is contained in nothing but itself, the relation is
    neither symmetric nor a partial order; each of the four edges contains,
    besides itself, exactly its two adjacent corners; and a pair is related
    exactly when the documented hierarchy relates it, every other pair
    yields false. *)
Theorem ssd_part_contains_hierarchy :
  (∀ whole candidate,
      ssd_part_contains whole candidate = true
      ∨ ssd_part_contains whole candidate = false)
  ∧ (∀ a, ssd_part_contains a a = true)
  ∧ (∀ a, ssd_part_contains LAB_SSD_ALL a = true)
  ∧ ssd_part_contains LAB_SSD_PART_TITLE LAB_SSD_PART_TITLEBAR = true
  ∧ (ssd_part_contains LAB_SSD_PART_TITLEBAR LAB_SSD_PART_TITLE = true
     ∧ LAB_SSD_PART_TITLEBAR ≠ LAB_SSD_PART_TITLE)
  ∧ (ssd_part_contains LAB_SSD_ALL LAB_SSD_NONE = true
     ∧ ssd_part_contains LAB_SSD_NONE LAB_SSD_ALL = false)
  ∧ (∀ c, ssd_part_contains LAB_SSD_PART_TOP c = true
          ↔ c = LAB_SSD_PART_TOP ∨ c = LAB_SSD_PART_CORNER_TOP_LEFT
            ∨ c = LAB_SSD_PART_CORNER_TOP_RIGHT)
  ∧ (∀ c, ssd_part_contains LAB_SSD_PART_RIGHT c = true
          ↔ c = LAB_SSD_PART_RIGHT ∨ c = LAB_SSD_PART_CORNER_TOP_RIGHT
            ∨ c = LAB_SSD_PART_CORNER_BOTTOM_RIGHT)
  ∧ (∀ c, ssd_part_contains LAB_SSD_PART_BOTTOM c = true
          ↔ c = LAB_SSD_PART_BOTTOM ∨ c = LAB_SSD_PART_CORNER_BOTTOM_RIGHT
            ∨ c = LAB_SSD_PART_CORNER_BOTTOM_LEFT)
  ∧ (∀ c, ssd_part_contains LAB_SSD_PART_LEFT c = true
          ↔ c = LAB_SSD_PART_LEFT ∨ c = LAB_SSD_PART_CORNER_TOP_LEFT
            ∨ c = LAB_SSD_PART_CORNER_BOTTOM_LEFT)
  ∧ (∀ whole candidate,
        ssd_part_contains whole candidate
        = bool_decide (documented_contains whole candidate)).
Proof.
  repeat split;
    try (intros; rewrite ssd_part_contains_documented; vm_compute; reflexivity);
    try discriminate.
  - intros whole candidate. destruct (ssd_part_contains whole candidate); auto.
  - intros a. apply ssd_part_contains_iff. now left.
  - intros a. apply ssd_part_contains_iff. right. now left.
  - destruct c; vm_compute; intros H; try discriminate H; auto.
  - intros [-> | [-> | ->]]; reflexivity.
  - destruct c; vm_compute; intros H; try discriminate H; auto.
  - intros [-> | [-> | ->]]; reflexivity.
  - destruct c; vm_compute; intros H; try discriminate H; auto.
  - intros [-> | [-> | ->]]; reflexivity.
  - destruct c; vm_compute; intros H; try discriminate H; auto.
  - intros [-> | [-> | ->]]; reflexivity.
Qed.

(** ** Geometric classification *)

(** With a corner range of 10000 the corner zones of the 40 by 40 window
    are 20 wide: right above the window, a cursor at a distance of 20 from
    both sides is on the top edge and in neither top corner. *)
Example get_resizing_type_small_view :
  get_resizing_type wide_range (Some (ssd_of_view small_view))
    (Some (cursor_at 19 (-5))) = LAB_SSD_PART_CORNER_TOP_LEFT
  ∧ get_resizing_type wide_range (Some (ssd_of_view small_view))
      (Some (cursor_at 20 (-5))) = LAB_SSD_PART_TOP
  ∧ get_resizing_type wide_range (Some (ssd_of_view small_view))
      (Some (cursor_at 21 (-5))) = LAB_SSD_PART_CORNER_TOP_RIGHT.
Proof. repeat split; vm_compute; reflexivity. Qed.

Lemma small_view_in_range : view_box_in_range small_view.
Proof.
  unfold view_box_in_range, int_range. cbn.
  repeat apply conj; discriminate.
Defined.

Lemma wide_range_in_range : int_range (resize_corner_range wide_range).
Proof. unfold int_range. cbn. split; discriminate. Defined.

(** C6.  [get_resizing_type] is [LAB_SSD_NONE] for every cursor inside the
    box of the view (its left and top bounds included), whatever the corner
    range, for a box whose bounds are [int]s; and it is [LAB_SSD_NONE]
    whenever the decorations are disabled for the view, the view is
    fullscreen, or there is no cursor, no decoration or no view behind the
    decoration. *)
Theorem get_resizing_type_none :
  (∀ rc d v c,
      ssd_view d = Some v →
      view_box_in_range v →
      0 < width (view_box_of v) → 0 < height (view_box_of v) →
      (cursor_x c >=? of_int (x (view_box_of v)))%D = true →
      (cursor_x c
       <? of_int (x (view_box_of v) + width (view_box_of v)))%D = true →
      (cursor_y c >=? of_int (y (view_box_of v)))%D = true →
      (cursor_y c
       <? of_int (y (view_box_of v) + height (view_box_of v)))%D = true →
      get_resizing_type rc (Some d) (Some c) = LAB_SSD_NONE)
  ∧ (∀ rc d v c,
        ssd_view d = Some v → ssd_enabled v = false →
        get_resizing_type rc (Some d) c = LAB_SSD_NONE)
  ∧ (∀ rc d v c,
        ssd_view d = Some v → fullscreen v = true →
        get_resizing_type rc (Some d) c = LAB_SSD_NONE)
  ∧ (∀ rc s, get_resizing_type rc s None = LAB_SSD_NONE)
  ∧ (∀ rc c, get_resizing_type rc None c = LAB_SSD_NONE)
  ∧ (∀ rc d c,
        ssd_view d = None → get_resizing_type rc (Some d) c = LAB_SSD_NONE).
Proof.
  repeat apply conj.
  - intros rc d v c Hv _ Hw Hh Hx1 Hx2 Hy1 Hy2.
    unfold get_resizing_type. cbn [mbind option_bind]. rewrite Hv.
    destruct (negb (ssd_enabled v) || fullscreen v); [reflexivity |].
    cbv zeta. unfold wlr_box_contains_point, wlr_box_empty.
    replace (width (view_box_of v) <=? 0) with false by (symmetry; lia).
    replace (height (view_box_of v) <=? 0) with false by (symmetry; lia).
    cbn [orb]. rewrite Hx1, Hx2, Hy1, Hy2. reflexivity.
  - intros rc d v c Hv He. unfold get_resizing_type.
    cbn [mbind option_bind]. rewrite Hv, He. destruct c; reflexivity.
  - intros rc d v c Hv Hf. unfold get_resizing_type.
    cbn [mbind option_bind]. rewrite Hv, Hf, orb_true_r.
    destruct c; reflexivity.
  - intros rc s. unfold get_resizing_type.
    destruct (s ≫= ssd_view); reflexivity.
  - intros rc c. reflexivity.
  - intros rc d c Hv. unfold get_resizing_type.
    cbn [mbind option_bind]. rewrite Hv. reflexivity.
Qed.

Lemma get_resizing_type_none_witness :
  get_resizing_type wide_range (Some (ssd_of_view small_view))
    (Some (cursor_at 0 39)) = LAB_SSD_NONE.
Proof.
  apply (proj1 get_resizing_type_none wide_range (ssd_of_view small_view)
           small_view (cursor_at 0 39));
    [reflexivity | exact small_view_in_range | ..]; vm_compute; reflexivity.
Defined.

(** ** Classification by scene node *)

Lemma part_eqb_eq a b : part_eqb a b = true ↔ a = b.
Proof. apply bool_decide_eq_true. Qed.

Lemma part_eqb_neq a b : part_eqb a b = false ↔ a ≠ b.
Proof. apply bool_decide_eq_false. Qed.

Lemma scan_parts_none node (l : list ssd_part) :
  (∀ part, part ∈ l → part_node part ≠ Some node) →
  scan_parts node l = LAB_SSD_NONE.
Proof.
  induction l as [| part rest IH]; intros Hl; [reflexivity |].
  cbn [scan_parts]. unfold ptr_eqb. rewrite bool_decide_eq_false_2.
  - apply IH. intros p Hp. apply Hl. now right.
  - intros Heq. apply (Hl part); [now left | now symmetry].
Qed.

(** C2, as stated, fails: the node 3 lies in the active border, no part
    stores it, the cursor is in the top left corner zone, and the result is
    [LAB_SSD_NONE], not the corner. *)
Lemma cursor_override_none_counterexample :
  find_part_list border_scene border_ssd 3%positive
    = Some (parts (border_active border_ssd))
  ∧ node_part_type border_scene border_ssd 3%positive = LAB_SSD_NONE
  ∧ get_resizing_type wide_range (Some border_ssd)
      (Some (cursor_at (-5) (-5))) = LAB_SSD_PART_CORNER_TOP_LEFT
  ∧ ssd_get_part_type wide_range border_scene (Some border_ssd)
      (Some 3%positive) (Some (cursor_at (-5) (-5))) = LAB_SSD_NONE
  ∧ ssd_get_part_type wide_range border_scene (Some border_ssd)
      (Some 3%positive) (Some (cursor_at (-5) (-5)))
    ≠ get_resizing_type wide_range (Some border_ssd)
        (Some (cursor_at (-5) (-5))).
Proof.
  repeat apply conj; try (vm_compute; reflexivity). vm_compute. discriminate.
Qed.

(** C2, amended.  For a node that is not client content and a decoration:
    when the lookup by node finds a part, a resizing type of the cursor
    other than [LAB_SSD_NONE] is the result, and the part found is the
    result when the cursor gives [LAB_SSD_NONE] or there is no cursor; when
    the lookup by node gives [LAB_SSD_NONE], as it does when no part of the
    matched sub-tree stores the node, the result is [LAB_SSD_NONE] whatever
    the cursor. *)
Theorem ssd_get_part_type_cursor_override rc sc d node cursor :
  is_client_node sc node = false →
  (node_part_type sc d node ≠ LAB_SSD_NONE →
   get_resizing_type rc (Some d) cursor ≠ LAB_SSD_NONE →
   ssd_get_part_type rc sc (Some d) (Some node) cursor
   = get_resizing_type rc (Some d) cursor)
  ∧ (node_part_type sc d node ≠ LAB_SSD_NONE →
     get_resizing_type rc (Some d) cursor = LAB_SSD_NONE →
     ssd_get_part_type rc sc (Some d) (Some node) cursor
     = node_part_type sc d node)
  ∧ (node_part_type sc d node = LAB_SSD_NONE →
     ssd_get_part_type rc sc (Some d) (Some node) cursor = LAB_SSD_NONE)
  ∧ (∀ part_list,
        find_part_list sc d node = Some part_list →
        (∀ part, part ∈ part_list → part_node part ≠ Some node) →
        ssd_get_part_type rc sc (Some d) (Some node) cursor = LAB_SSD_NONE).
Proof.
  intros Hclient.
  assert (Hnone : node_part_type sc d node = LAB_SSD_NONE →
                  ssd_get_part_type rc sc (Some d) (Some node) cursor
                  = LAB_SSD_NONE).
  { intros Hp. unfold ssd_get_part_type. rewrite Hclient. cbv zeta.
    rewrite Hp. reflexivity. }
  repeat apply conj.
  - intros Hp Hr. unfold ssd_get_part_type. rewrite Hclient. cbv zeta.
    apply part_eqb_neq in Hp, Hr. rewrite Hp, Hr. reflexivity.
  - intros Hp Hr. unfold ssd_get_part_type. rewrite Hclient. cbv zeta.
    apply part_eqb_neq in Hp. rewrite Hp, Hr. reflexivity.
  - exact Hnone.
  - intros part_list Hfind Hparts. apply Hnone.
    unfold node_part_type. rewrite Hfind. now apply scan_parts_none.
Qed.

Lemma ssd_get_part_type_cursor_override_witness :
  ssd_get_part_type wide_range border_scene (Some border_ssd)
    (Some 2%positive) (Some (cursor_at (-5) (-5)))
  = get_resizing_type wide_range (Some border_ssd) (Some (cursor_at (-5) (-5))).
Proof.
  apply (ssd_get_part_type_cursor_override wide_range border_scene border_ssd
           2%positive (Some (cursor_at (-5) (-5)))).
  - vm_compute; reflexivity.
  - vm_compute; discriminate.
  - vm_compute; discriminate.
Defined.

(** C10.  Without a node [ssd_get_part_type] is [LAB_SSD_NONE]; for a node
    that is not client content and no decoration it is [LAB_SSD_NONE] too;
    so a result that labels a part of a decoration, one other than
    [LAB_SSD_NONE] and [LAB_SSD_CLIENT], comes from a node and a decoration
    that are both present. *)
Theorem ssd_get_part_type_absent_handles :
  (∀ rc sc s cursor,
      ssd_get_part_type rc sc s None cursor = LAB_SSD_NONE)
  ∧ (∀ rc sc node cursor,
        is_client_node sc node = false →
        ssd_get_part_type rc sc None (Some node) cursor = LAB_SSD_NONE)
  ∧ (∀ rc sc s node cursor,
        ssd_get_part_type rc sc s node cursor ≠ LAB_SSD_NONE →
        ssd_get_part_type rc sc s node cursor ≠ LAB_SSD_CLIENT →
        is_Some node ∧ is_Some s).
Proof.
  repeat apply conj.
  - reflexivity.
  - intros rc sc node cursor Hclient. unfold ssd_get_part_type.
    rewrite Hclient. reflexivity.
  - intros rc sc s [node |] cursor; [| intros H; now contradiction H].
    unfold ssd_get_part_type. destruct (is_client_node sc node).
    + intros _ H. now contradiction H.
    + destruct s as [d |]; [eauto | intros H; now contradiction H].
Qed.

Lemma ssd_get_part_type_absent_handles_witness :
  ssd_get_part_type wide_range border_scene None (Some 2%positive)
    (Some (cursor_at (-5) (-5))) = LAB_SSD_NONE
  ∧ is_Some (Some 2%positive) ∧ is_Some (Some border_ssd).
Proof.
  split.
  - apply (proj1 (proj2 ssd_get_part_type_absent_handles)).
    vm_compute; reflexivity.
  - apply (proj2 (proj2 ssd_get_part_type_absent_handles) wide_range
             border_scene (Some border_ssd) (Some 2%positive)
             (Some (cursor_at (-5) (-5)))); vm_compute; discriminate.
Defined.

(** ** Active and inactive sub-trees *)

Lemma enabled_set_enabled n b sc m :
  enabled (wlr_scene_node_set_enabled n b sc) m
  = if bool_decide (m = n) then (λ _, b) <$> enabled sc m else enabled sc m.
Proof.
  unfold enabled, wlr_scene_node_set_enabled. cbn [nodes].
  case_bool_decide as Hm.
  - subst m. rewrite lookup_alter_eq. now destruct (nodes sc !! n).
  - rewrite lookup_alter_ne by congruence. reflexivity.
Qed.

Lemma bool_decide_elem_of_cons (m n : node_ref) (l : list node_ref) :
  bool_decide (m ∈ n :: l) = bool_decide (m = n) || bool_decide (m ∈ l).
Proof.
  apply eq_true_iff_eq.
  rewrite orb_true_iff, !bool_decide_eq_true. apply elem_of_cons.
Qed.

Lemma bool_decide_elem_of_nil (m : node_ref) : bool_decide (m ∈ []) = false.
Proof. apply bool_decide_eq_false. apply not_elem_of_nil. Qed.

Lemma in_scene_enabled sc n : in_scene sc n ↔ is_Some (enabled sc n).
Proof. unfold in_scene, enabled. now rewrite fmap_is_Some. Qed.

Lemma in_scene_set_enabled n b sc m :
  in_scene (wlr_scene_node_set_enabled n b sc) m ↔ in_scene sc m.
Proof.
  rewrite !in_scene_enabled, enabled_set_enabled.
  case_bool_decide; [now rewrite fmap_is_Some | reflexivity].
Qed.

(** What a node shows after [ssd_set_active]: the inactive sub-trees are
    set last, the active ones before them, every other node is left as it
    was. *)
Lemma enabled_ssd_set_active d active sc sc' m :
  ssd_set_active (Some d) active sc = Some sc' →
  in_scene sc m →
  enabled sc' m
  = if bool_decide (m ∈ inactive_trees d) then Some (negb active)
    else if bool_decide (m ∈ active_trees d) then Some active
    else enabled sc m.
Proof.
  unfold ssd_set_active, active_trees, inactive_trees.
  destruct (tree (border_active d)) as [ba |]; [| discriminate].
  destruct (tree (titlebar_active d)) as [ta |]; [| discriminate].
  destruct (tree (border_inactive d)) as [bi |]; [| discriminate].
  destruct (tree (titlebar_inactive d)) as [ti |]; [| discriminate].
  cbn [mbind option_bind]. intros [= <-] Hm.
  apply in_scene_enabled in Hm. destruct Hm as [e He].
  destruct (tree (shadow_active d)) as [sa |],
           (tree (shadow_inactive d)) as [si |];
    cbn [omap list_omap id];
    rewrite !enabled_set_enabled, He,
      !bool_decide_elem_of_cons, bool_decide_elem_of_nil;
    repeat match goal with
           | |- context [bool_decide (m = ?n)] =>
               destruct (bool_decide (m = n))
           end;
    reflexivity.
Qed.

(** C8.  After [ssd_set_active] on a decoration, for either value of
    [active], the active titlebar and the active border are enabled exactly
    when [active] holds and the inactive titlebar and the inactive border
    exactly when it does not, so exactly one sub-tree of each pair is
    enabled; the shadow sub-trees that exist follow their pair; every node
    that is no sub-tree of the decoration is left as it was; and without a
    decoration the call changes nothing. *)
Theorem ssd_set_active_lockstep sc d active :
  ssd_trees_wf sc d →
  ssd_set_active None active sc = Some sc
  ∧ ∃ sc',
      ssd_set_active (Some d) active sc = Some sc'
      ∧ (tree (titlebar_active d) ≫= enabled sc') = Some active
      ∧ (tree (titlebar_inactive d) ≫= enabled sc') = Some (negb active)
      ∧ (tree (border_active d) ≫= enabled sc') = Some active
      ∧ (tree (border_inactive d) ≫= enabled sc') = Some (negb active)
      ∧ (∀ sa, tree (shadow_active d) = Some sa →
               enabled sc' sa = Some active)
      ∧ (∀ si, tree (shadow_inactive d) = Some si →
               enabled sc' si = Some (negb active))
      ∧ (∀ m, in_scene sc m →
              m ∉ active_trees d → m ∉ inactive_trees d →
              enabled sc' m = enabled sc m).
Proof.
  intros (Hba & Hta & Hbi & Hti & Hin & Hdisj).
  split; [reflexivity |].
  destruct (ssd_set_active (Some d) active sc) as [sc' |] eqn:Hset.
  2: { unfold ssd_set_active in Hset.
       destruct Hba as [? Hba], Hta as [? Hta], Hbi as [? Hbi], Hti as [? Hti].
       rewrite Hba, Hta, Hbi, Hti in Hset. discriminate Hset. }
  exists sc'. split; [reflexivity |].
  pose proof (λ m, enabled_ssd_set_active d active sc sc' m Hset) as Hen.
  rewrite Forall_forall in Hin.
  assert (Hact : ∀ m, m ∈ active_trees d → enabled sc' m = Some active).
  { intros m Hm. rewrite Hen by (apply Hin; set_solver).
    rewrite bool_decide_eq_false_2 by set_solver.
    now rewrite bool_decide_eq_true_2. }
  assert (Hinact : ∀ m, m ∈ inactive_trees d →
                        enabled sc' m = Some (negb active)).
  { intros m Hm. rewrite Hen by (apply Hin; set_solver).
    now rewrite bool_decide_eq_true_2. }
  unfold active_trees, inactive_trees in Hact, Hinact.
  destruct Hba as [ba Hba], Hta as [ta Hta], Hbi as [bi Hbi], Hti as [ti Hti].
  rewrite Hba, Hta in Hact. rewrite Hbi, Hti in Hinact.
  rewrite Hba, Hta, Hbi, Hti. cbn [mbind option_bind].
  cbn [omap list_omap id] in Hact, Hinact.
  repeat apply conj.
  - apply Hact. set_solver.
  - apply Hinact. set_solver.
  - apply Hact. set_solver.
  - apply Hinact. set_solver.
  - intros sa Hsa. apply Hact. rewrite Hsa. set_solver.
  - intros si Hsi. apply Hinact. rewrite Hsi. set_solver.
  - intros m Hm Hna Hni. rewrite Hen by exact Hm.
    now rewrite !bool_decide_eq_false_2.
Qed.

Lemma deco_trees_wf : ssd_trees_wf deco_scene deco_ssd.
Proof.
  repeat apply conj; try (eexists; reflexivity).
  - repeat constructor; eexists; vm_compute; reflexivity.
  - intros m Ha Hi. cbn in Ha, Hi.
    apply list_elem_of_In in Ha, Hi. cbn in Ha, Hi. intuition congruence.
Defined.

Lemma ssd_set_active_lockstep_witness :
  ∃ sc',
    ssd_set_active (Some deco_ssd) true deco_scene = Some sc'
    ∧ enabled sc' 2%positive = Some true
    ∧ enabled sc' 3%positive = Some false
    ∧ enabled sc' 4%positive = Some true
    ∧ enabled sc' 5%positive = Some false.
Proof.
  destruct (ssd_set_active_lockstep deco_scene deco_ssd true deco_trees_wf)
    as (_ & sc' & Hset & Hta & Hti & Hba & Hbi & _).
  exists sc'. repeat apply conj; assumption.
Defined.

(** ** Edge snapping *)

Lemma snap_output_in_range top_maximize :
  snap_margins_in_range (snap_rc top_maximize) snap_output.
Proof.
  unfold snap_margins_in_range, int_range. cbn.
  repeat apply conj; discriminate.
Defined.

(** C4.  For a floating grabbed view, a snap range other than zero and a
    usable nearest output whose margins are [int]s, [edge_from_cursor]
    stores the output and checks the cursor, in the coordinates of the
    output, against the left, the right, the top and the bottom margin of
    the usable area, in this order, the first match deciding; the top margin
    gives [VIEW_EDGE_CENTER] when [snap_top_maximize] is set and
    [VIEW_EDGE_UP] otherwise.  When the
    grabbed view is not floating or the snap range is zero, it returns
    [VIEW_EDGE_INVALID] and stores nothing.  On a usable area of 1000 by 800
    at the origin with a snap range of 10 the cursors (5,400), (995,400),
    (500,5), (500,795) and (500,400) give left, right, up (center with
    [snap_top_maximize]), down and invalid. *)
Theorem edge_from_cursor_margins :
  (∀ rc s g v o,
      grabbed_view s = Some g → view_table s !! g = Some v →
      floating v = true → snap_edge_range rc ≠ 0 →
      nearest_output s = Some o → usable o = true →
      snap_margins_in_range rc o →
      let cx := (cursor_x (seat_cursor s) - of_int (layout_x o))%D in
      let cy := (cursor_y (seat_cursor s) - of_int (layout_y o))%D in
      let area := usable_area o in
      let range := snap_edge_range rc in
      let at_left := (cx <=? of_int (x area + range))%D in
      let at_right := (cx >=? of_int (x area + width area - range))%D in
      let at_top := (cy <=? of_int (y area + range))%D in
      let at_bottom := (cy >=? of_int (y area + height area - range))%D in
      ∃ edge,
        edge_from_cursor rc s = Some (edge, Some o)
        ∧ (at_left = true → edge = VIEW_EDGE_LEFT)
        ∧ (at_left = false → at_right = true → edge = VIEW_EDGE_RIGHT)
        ∧ (at_left = false → at_right = false → at_top = true →
           edge = if snap_top_maximize rc then VIEW_EDGE_CENTER
                  else VIEW_EDGE_UP)
        ∧ (at_left = false → at_right = false → at_top = false →
           at_bottom = true → edge = VIEW_EDGE_DOWN)
        ∧ (at_left = false → at_right = false → at_top = false →
           at_bottom = false → edge = VIEW_EDGE_INVALID))
  ∧ (∀ rc s g v,
        grabbed_view s = Some g → view_table s !! g = Some v →
        floating v = false →
        edge_from_cursor rc s = Some (VIEW_EDGE_INVALID, None))
  ∧ (∀ rc s g v,
        grabbed_view s = Some g → view_table s !! g = Some v →
        snap_edge_range rc = 0 →
        edge_from_cursor rc s = Some (VIEW_EDGE_INVALID, None))
  ∧ (∀ top_maximize,
        edge_from_cursor (snap_rc top_maximize)
          (snap_server true (cursor_at 5 400))
        = Some (VIEW_EDGE_LEFT, Some snap_output)
        ∧ edge_from_cursor (snap_rc top_maximize)
            (snap_server true (cursor_at 995 400))
          = Some (VIEW_EDGE_RIGHT, Some snap_output)
        ∧ edge_from_cursor (snap_rc top_maximize)
            (snap_server true (cursor_at 500 795))
          = Some (VIEW_EDGE_DOWN, Some snap_output)
        ∧ edge_from_cursor (snap_rc top_maximize)
            (snap_server true (cursor_at 500 400))
          = Some (VIEW_EDGE_INVALID, Some snap_output))
  ∧ edge_from_cursor (snap_rc false) (snap_server true (cursor_at 500 5))
    = Some (VIEW_EDGE_UP, Some snap_output)
  ∧ edge_from_cursor (snap_rc true) (snap_server true (cursor_at 500 5))
    = Some (VIEW_EDGE_CENTER, Some snap_output)
  ∧ edge_from_cursor (snap_rc false) (snap_server true (cursor_at 5 5))
    = Some (VIEW_EDGE_LEFT, Some snap_output)
  ∧ edge_from_cursor (snap_rc false) (snap_server true (cursor_at 995 795))
    = Some (VIEW_EDGE_RIGHT, Some snap_output).
Proof.
  repeat apply conj.
  - intros rc s g v o Hg Hv Hf Hr Ho Hu _. cbv zeta.
    unfold edge_from_cursor. rewrite Hg. cbn [mbind option_bind].
    rewrite Hv. cbn [mbind option_bind]. rewrite Hf. cbn [negb]. cbv zeta.
    apply Z.eqb_neq in Hr. rewrite Hr, Ho, Hu. cbn [negb].
    eexists. split; [reflexivity |].
    repeat apply conj; intros; repeat match goal with
                                      | H : _ = _ |- _ => rewrite H
                                      end; reflexivity.
  - intros rc s g v Hg Hv Hf. unfold edge_from_cursor. rewrite Hg.
    cbn [mbind option_bind]. rewrite Hv. cbn [mbind option_bind].
    rewrite Hf. reflexivity.
  - intros rc s g v Hg Hv Hr. unfold edge_from_cursor. rewrite Hg.
    cbn [mbind option_bind]. rewrite Hv. cbn [mbind option_bind].
    rewrite Hr. destruct (floating v); reflexivity.
  - intros []; repeat apply conj; vm_compute; reflexivity.
  - vm_compute; reflexivity.
  - vm_compute; reflexivity.
  - vm_compute; reflexivity.
  - vm_compute; reflexivity.
Qed.

Lemma edge_from_cursor_margins_witness :
  ∃ edge,
    edge_from_cursor (snap_rc false) (snap_server true (cursor_at 5 5))
    = Some (edge, Some snap_output)
    ∧ edge = VIEW_EDGE_LEFT.
Proof.
  destruct (proj1 edge_from_cursor_margins (snap_rc false)
              (snap_server true (cursor_at 5 5)) 1%positive
              {| current := {| x := 0; y := 0; width := 200; height := 100 |};
                 effective_height := 100; ssd_enabled := true;
                 fullscreen := false; ssd_titlebar_hidden := false;
                 titlebar_height := 20; floating := true;
                 scene_tree := None; cycle_candidate := true |}
              snap_output)
    as (edge & Hedge & Hleft & _); try (vm_compute; reflexivity).
  - vm_compute. discriminate.
  - exact (snap_output_in_range false).
  - exists edge. split; [exact Hedge |]. apply Hleft. vm_compute. reflexivity.
Defined.

(** ** Conversions between [int] and [double]

    An [int] is converted to a double exactly: the conversion back returns
    it, and two converted [int]s compare as the [int]s do. *)

Lemma digits2_pos_bounds p :
  2 ^ (Z.pos (digits2_pos p) - 1) ≤ Z.pos p < 2 ^ Z.pos (digits2_pos p).
Proof.
  induction p as [p IH | p IH |]; cbn [digits2_pos].
  - rewrite Pos2Z.inj_succ. change (Z.pos p~1) with (2 * Z.pos p + 1).
    replace (Z.succ (Z.pos (digits2_pos p)) - 1)
      with (Z.succ (Z.pos (digits2_pos p) - 1)) by lia.
    rewrite !Z.pow_succ_r by lia.
    generalize dependent (2 ^ (Z.pos (digits2_pos p) - 1)).
    generalize (2 ^ Z.pos (digits2_pos p)). lia.
  - rewrite Pos2Z.inj_succ. change (Z.pos p~0) with (2 * Z.pos p).
    replace (Z.succ (Z.pos (digits2_pos p)) - 1)
      with (Z.succ (Z.pos (digits2_pos p) - 1)) by lia.
    rewrite !Z.pow_succ_r by lia.
    generalize dependent (2 ^ (Z.pos (digits2_pos p) - 1)).
    generalize (2 ^ Z.pos (digits2_pos p)). lia.
  - cbn. lia.
Qed.

Lemma digits2_pos_iter_xO p k :
  digits2_pos (Pos.iter xO p k) = (digits2_pos p + k)%positive.
Proof.
  induction k as [| k IH] using Pos.peano_ind.
  - cbn. lia.
  - rewrite Pos.iter_succ. cbn [digits2_pos]. rewrite IH. lia.
Qed.

Lemma Zpos_iter_xO p k : Z.pos (Pos.iter xO p k) = Z.pos p * 2 ^ Z.pos k.
Proof.
  induction k as [| k IH] using Pos.peano_ind.
  - cbn. lia.
  - rewrite Pos.iter_succ.
    change (Z.pos (Pos.iter xO p k)~0) with (2 * Z.pos (Pos.iter xO p k)).
    rewrite IH, Pos2Z.inj_succ, Z.pow_succ_r by lia. lia.
Qed.

Lemma digits2_pos_int p : Z.pos p ≤ 2 ^ 31 → Z.pos (digits2_pos p) ≤ 32.
Proof.
  intros Hp. pose proof (digits2_pos_bounds p) as [Hlo _].
  destruct (Z.le_gt_cases (Z.pos (digits2_pos p)) 32) as [| Hgt];
    [assumption |].
  assert (2 ^ 32 ≤ 2 ^ (Z.pos (digits2_pos p) - 1))
    by (apply Z.pow_le_mono_r; lia).
  lia.
Qed.

Lemma binary_round_int sx p :
  Z.pos p ≤ 2 ^ 31 →
  binary_round double_prec double_emax sx p 0
  = S754_finite sx (int_mantissa p) (int_exponent p).
Proof.
  intros Hp. pose proof (digits2_pos_int p Hp) as Hd.
  assert (Hd0 : 0 < Z.pos (digits2_pos p)) by lia.
  unfold binary_round, shl_align, fexp, emin, double_prec, double_emax.
  rewrite Z.add_0_r.
  replace (Z.max (Z.pos (digits2_pos p) - 53) (3 - 1024 - 53) - 0)
    with (Z.neg (Z.to_pos (53 - Z.pos (digits2_pos p)))).
  2: { rewrite <- Pos2Z.opp_pos, Z2Pos.id by lia. lia. }
  fold (int_mantissa p).
  unfold binary_round_aux, shr_fexp, fexp, emin.
  cbn [Zdigits2 shr_record_of_loc].
  unfold int_mantissa at 1 2 3. rewrite !digits2_pos_iter_xO.
  fold (int_mantissa p).
  rewrite Pos2Z.inj_add, Z2Pos.id by lia.
  replace (Z.max (Z.pos (digits2_pos p) + (53 - Z.pos (digits2_pos p))
                  + Z.max (Z.pos (digits2_pos p) - 53) (3 - 1024 - 53) - 53)
                 (3 - 1024 - 53)
           - Z.max (Z.pos (digits2_pos p) - 53) (3 - 1024 - 53)) with 0 by lia.
  cbn [shr shr_m loc_of_shr_record round_nearest_even Zdigits2
       shr_record_of_loc shr_r shr_s].
  replace (Z.pos (digits2_pos (int_mantissa p))) with 53.
  2: { unfold int_mantissa. rewrite digits2_pos_iter_xO, Pos2Z.inj_add,
         Z2Pos.id by lia. lia. }
  replace (Z.max (Z.pos (digits2_pos p) - 53) (3 - 1024 - 53))
    with (int_exponent p) by (unfold int_exponent; lia).
  replace (Z.max (53 + int_exponent p - 53) (3 - 1024 - 53) - int_exponent p)
    with 0 by (unfold int_exponent; lia).
  cbn [shr shr_m].
  replace (int_exponent p <=? 1024 - 53) with true
    by (symmetry; apply Z.leb_le; unfold int_exponent; lia).
  reflexivity.
Qed.

Lemma of_int_pos p :
  Z.pos p ≤ 2 ^ 31 →
  of_int (Z.pos p) = S754_finite false (int_mantissa p) (int_exponent p).
Proof. apply binary_round_int. Qed.

Lemma of_int_neg p :
  Z.pos p ≤ 2 ^ 31 →
  of_int (Z.neg p) = S754_finite true (int_mantissa p) (int_exponent p).
Proof. apply binary_round_int. Qed.

Lemma int_mantissa_value p :
  Z.pos p ≤ 2 ^ 31 →
  Z.pos (int_mantissa p) = Z.pos p * 2 ^ (- int_exponent p).
Proof.
  intros Hp. pose proof (digits2_pos_int p Hp).
  unfold int_mantissa, int_exponent.
  rewrite Zpos_iter_xO, Z2Pos.id by lia. f_equal. f_equal. lia.
Qed.

Lemma trunc_of_int i : int_range i → trunc (of_int i) = Some i.
Proof.
  unfold int_range, INT_MIN, INT_MAX. intros Hi.
  destruct i as [| p | p]; [reflexivity | |].
  - assert (Hp : Z.pos p ≤ 2 ^ 31) by lia.
    rewrite of_int_pos by exact Hp. cbn [trunc].
    pose proof (digits2_pos_int p Hp).
    replace (0 <=? int_exponent p) with false
      by (symmetry; apply Z.leb_gt; unfold int_exponent; lia).
    rewrite int_mantissa_value by exact Hp.
    rewrite Z.div_mul; [reflexivity |].
    apply Z.pow_nonzero; unfold int_exponent; lia.
  - assert (Hp : Z.pos p ≤ 2 ^ 31) by lia.
    rewrite of_int_neg by exact Hp. cbn [trunc].
    pose proof (digits2_pos_int p Hp).
    replace (0 <=? int_exponent p) with false
      by (symmetry; apply Z.leb_gt; unfold int_exponent; lia).
    rewrite int_mantissa_value by exact Hp.
    rewrite Z.div_mul; [reflexivity |].
    apply Z.pow_nonzero; unfold int_exponent; lia.
Qed.

Lemma to_int_of_int i : int_range i → to_int (of_int i) = Some i.
Proof.
  intros Hi. unfold to_int. rewrite trunc_of_int by exact Hi.
  unfold int_range in Hi.
  replace (INT_MIN <=? i) with true by (symmetry; apply Z.leb_le; lia).
  replace (i <=? INT_MAX) with true by (symmetry; apply Z.leb_le; lia).
  reflexivity.
Qed.

Lemma to_int_range d i : to_int d = Some i → int_range i.
Proof.
  unfold to_int, int_range. destruct (trunc d) as [j |]; [| discriminate].
  destruct (INT_MIN <=? j) eqn:Hlo; [| discriminate].
  destruct (j <=? INT_MAX) eqn:Hhi; [| discriminate].
  intros [= <-]. apply Z.leb_le in Hlo, Hhi. lia.
Qed.

(** Doubles that come from two positive [int]s compare as the [int]s. *)
Lemma compare_int_pos p q :
  Z.pos p ≤ 2 ^ 31 → Z.pos q ≤ 2 ^ 31 →
  match int_exponent p ?= int_exponent q with
  | Lt => Lt
  | Gt => Gt
  | Eq => Pos.compare_cont Eq (int_mantissa p) (int_mantissa q)
  end = (Z.pos p ?= Z.pos q).
Proof.
  intros Hp Hq.
  pose proof (digits2_pos_bounds p) as [Hplo Hphi].
  pose proof (digits2_pos_bounds q) as [Hqlo Hqhi].
  pose proof (int_mantissa_value p Hp) as Hmp.
  pose proof (int_mantissa_value q Hq) as Hmq.
  unfold int_exponent in *.
  destruct (Z.compare_spec (Z.pos (digits2_pos p) - 53)
              (Z.pos (digits2_pos q) - 53)) as [He | He | He].
  - change (Pos.compare_cont Eq (int_mantissa p) (int_mantissa q))
      with (Z.pos (int_mantissa p) ?= Z.pos (int_mantissa q)).
    rewrite Hmp, Hmq.
    replace (Z.pos (digits2_pos q)) with (Z.pos (digits2_pos p)) by lia.
    rewrite !(Z.mul_comm (Z.pos _)).
    symmetry. apply Zmult_compare_compat_l, Z.lt_gt.
    apply Z.pow_pos_nonneg; [lia |].
    pose proof (digits2_pos_int p Hp). lia.
  - symmetry. apply Z.compare_lt_iff.
    assert (2 ^ Z.pos (digits2_pos p) ≤ 2 ^ (Z.pos (digits2_pos q) - 1))
      by (apply Z.pow_le_mono_r; lia).
    lia.
  - symmetry. apply Z.compare_gt_iff.
    assert (2 ^ Z.pos (digits2_pos q) ≤ 2 ^ (Z.pos (digits2_pos p) - 1))
      by (apply Z.pow_le_mono_r; lia).
    lia.
Qed.

Lemma SFcompare_of_int i j :
  int_range i → int_range j →
  SFcompare (of_int i) (of_int j) = Some (i ?= j).
Proof.
  unfold int_range, INT_MIN, INT_MAX. intros Hi Hj.
  destruct i as [| p | p], j as [| q | q];
    try reflexivity;
    rewrite ?of_int_pos, ?of_int_neg by lia;
    try reflexivity.
  - cbn [SFcompare]. f_equal. apply compare_int_pos; lia.
  - cbn [SFcompare]. f_equal.
    change (Z.neg p ?= Z.neg q) with (CompOpp (Z.pos p ?= Z.pos q)).
    rewrite <- (compare_int_pos p q) by lia.
    destruct (int_exponent p ?= int_exponent q); reflexivity.
Qed.

Lemma double_lt_of_int i j :
  int_range i → int_range j → (of_int i <? of_int j)%D = (i <? j).
Proof.
  intros Hi Hj. unfold double_lt, SFltb. rewrite SFcompare_of_int by assumption.
  unfold Z.ltb. destruct (i ?= j); reflexivity.
Qed.

(** ** Anchoring the grab box to the cursor *)

Lemma max_move_scale_clamped cursor old_pos old_size new_size pos_new :
  int_range old_pos →
  to_int (anchor_scale cursor old_pos old_size new_size) = Some pos_new →
  max_move_scale cursor (of_int old_pos) (of_int old_size) (of_int new_size)
  = Some (Z.max pos_new old_pos).
Proof.
  intros Hold Hnew. unfold max_move_scale. cbv zeta.
  fold (anchor_scale cursor old_pos old_size new_size). rewrite Hnew.
  cbn [mbind option_bind].
  rewrite double_lt_of_int by eauto using to_int_range.
  destruct (Z.ltb_spec pos_new old_pos).
  - rewrite to_int_of_int by exact Hold. f_equal. lia.
  - f_equal. lia.
Qed.

(** C3.  In move mode, for a new box that is not empty,
    [interactive_anchor_to_cursor] stores as the anchor of the grab box, on
    each axis, the position [cursor - new_size * ((cursor - old_pos) /
    old_size)] of the grab cursor in the old grab box, converted to [int],
    or the old anchor position when that is greater, and the size of the
    new box as its size: the anchor is never less than the old one.  For the
    old box (0, 0, 200, 100), the grab cursor (150, 50) and a new box of 100
    by 50 the anchor is (75, 25).  For an empty new box nothing changes. *)
Theorem interactive_anchor_to_cursor_anchor :
  (∀ s geo px py,
      input_mode s = LAB_INPUT_STATE_MOVE →
      wlr_box_empty geo = false →
      int_range (x (grab_box s)) → int_range (y (grab_box s)) →
      to_int (anchor_scale (grab_x s) (x (grab_box s)) (width (grab_box s))
                (width geo)) = Some px →
      to_int (anchor_scale (grab_y s) (y (grab_box s)) (height (grab_box s))
                (height geo)) = Some py →
      is_Some (to_int (of_int (Z.max px (x (grab_box s)))
                       + (cursor_x (seat_cursor s) - grab_x s))%D) →
      is_Some (to_int (of_int (Z.max py (y (grab_box s)))
                       + (cursor_y (seat_cursor s) - grab_y s))%D) →
      ∃ s' geo',
        interactive_anchor_to_cursor s geo = Some (s', geo')
        ∧ grab_box s'
          = {| x := Z.max px (x (grab_box s));
               y := Z.max py (y (grab_box s));
               width := width geo; height := height geo |}
        ∧ x (grab_box s) ≤ x (grab_box s')
        ∧ y (grab_box s) ≤ y (grab_box s'))
  ∧ (∀ s geo,
        input_mode s = LAB_INPUT_STATE_MOVE →
        wlr_box_empty geo = true →
        interactive_anchor_to_cursor s geo = Some (s, geo))
  ∧ (∀ geo_x geo_y,
        ∃ s' geo',
          interactive_anchor_to_cursor anchor_server
            {| x := geo_x; y := geo_y; width := 100; height := 50 |}
          = Some (s', geo')
          ∧ grab_box s' = {| x := 75; y := 25; width := 100; height := 50 |}).
Proof.
  repeat apply conj.
  - intros s geo px py Hmode Hgeo Hx Hy Hpx Hpy [gx Hgx] [gy Hgy].
    unfold interactive_anchor_to_cursor. rewrite Hmode, Hgeo.
    rewrite bool_decide_eq_true_2 by reflexivity. cbn [negb].
    rewrite (max_move_scale_clamped _ _ _ _ px Hx Hpx).
    rewrite (max_move_scale_clamped _ _ _ _ py Hy Hpy).
    cbn [mbind option_bind]. rewrite Hgx, Hgy. cbn [mbind option_bind].
    eexists _, _. split; [reflexivity |]. cbn [grab_box set_grab_box x y].
    repeat apply conj; [reflexivity | lia | lia].
  - intros s geo Hmode Hgeo. unfold interactive_anchor_to_cursor.
    rewrite Hmode, Hgeo. rewrite bool_decide_eq_true_2 by reflexivity.
    reflexivity.
  - intros geo_x geo_y. eexists _, _. split.
    + vm_compute. reflexivity.
    + reflexivity.
Qed.

Lemma interactive_anchor_to_cursor_anchor_witness :
  ∃ s' geo',
    interactive_anchor_to_cursor anchor_server
      {| x := 0; y := 0; width := 100; height := 50 |} = Some (s', geo')
    ∧ grab_box s' = {| x := 75; y := 25; width := 100; height := 50 |}.
Proof.
  destruct (proj1 interactive_anchor_to_cursor_anchor anchor_server
              {| x := 0; y := 0; width := 100; height := 50 |} 75 25)
    as (s' & geo' & Hcall & Hbox & _);
    try (vm_compute; reflexivity);
    try (vm_compute; split; discriminate);
    try (eexists; vm_compute; reflexivity).
  exists s', geo'. split; [exact Hcall | exact Hbox].
Defined.

(** ** Window switcher: the first selection *)

(** Without a start view and forwards, [get_next_cycle_view] is two steps
    of the iteration from the head of the list, whatever the iteration
    does. *)
Lemma get_next_cycle_view_first s :
  get_next_cycle_view s None LAB_CYCLE_DIR_FORWARD
  = view_next_no_head_stop (views s)
      (view_next_no_head_stop (views s) None (matches_criteria s))
      (matches_criteria s).
Proof. reflexivity. Qed.

(** The iteration over the stack [1; 2; 3]: forwards from the head, from
    the middle and from the bottom, where it passes over the head of the
    list; backwards from the top; and from a view that is alone. *)
Example view_next_no_head_stop_steps :
  let all := matches_criteria (cycle_server [1; 2; 3]%positive) in
  view_next_no_head_stop [1; 2; 3]%positive None all = Some 1%positive
  ∧ view_next_no_head_stop [1; 2; 3]%positive (Some 2%positive) all
    = Some 3%positive
  ∧ view_next_no_head_stop [1; 2; 3]%positive (Some 3%positive) all
    = Some 1%positive
  ∧ view_prev_no_head_stop [1; 2; 3]%positive (Some 1%positive) all
    = Some 3%positive
  ∧ view_prev_no_head_stop [1; 2; 3]%positive None all = Some 3%positive
  ∧ view_next_no_head_stop [1]%positive (Some 1%positive)
      (matches_criteria (cycle_server [1]%positive)) = Some 1%positive.
Proof. repeat apply conj; vm_compute; reflexivity. Qed.

(** C1, as stated, fails: over the stack [1; 2; 3] with 1 topmost, the
    first [osd_begin] forwards selects the view 2, not the view 3. *)
Lemma osd_begin_first_counterexample :
  view_next_no_head_stop [1; 2; 3]%positive None
    (matches_criteria (cycle_server [1; 2; 3]%positive)) = Some 1%positive
  ∧ cycle_view (osd (osd_begin (cycle_server [1; 2; 3]%positive)
                       LAB_CYCLE_DIR_FORWARD)) = Some 2%positive
  ∧ cycle_view (osd (osd_begin (cycle_server [1; 2; 3]%positive)
                       LAB_CYCLE_DIR_FORWARD)) ≠ Some 3%positive.
Proof.
  repeat apply conj; try (vm_compute; reflexivity). vm_compute. discriminate.
Qed.

(** C1, amended.  From the idle mode, without a prior selection, over a
    stack whose two topmost views [w1] and [w2] are candidates of the
    window switcher, the first [osd_begin] forwards selects [w2], the
    second view from the top: the step from the head of the list that
    [get_next_cycle_view] takes first yields the topmost view [w1], and the
    step it then takes from [w1] yields [w2].  The input mode becomes the
    window switcher. *)
Theorem osd_begin_first_forward s w1 w2 rest :
  input_mode s = LAB_INPUT_STATE_PASSTHROUGH →
  cycle_view (osd s) = None →
  views s = w1 :: w2 :: rest →
  w1 ≠ w2 →
  matches_criteria s w1 = true →
  matches_criteria s w2 = true →
  view_next_no_head_stop (views s) None (matches_criteria s) = Some w1
  ∧ get_next_cycle_view s None LAB_CYCLE_DIR_FORWARD = Some w2
  ∧ cycle_view (osd (osd_begin s LAB_CYCLE_DIR_FORWARD)) = Some w2
  ∧ input_mode (osd_begin s LAB_CYCLE_DIR_FORWARD)
    = LAB_INPUT_STATE_WINDOW_SWITCHER.
Proof.
  intros Hmode Hsel Hviews Hne Hw1 Hw2.
  assert (Hfirst : view_next_no_head_stop (views s) None (matches_criteria s)
                   = Some w1).
  { rewrite Hviews. cbn [view_next_no_head_stop find]. now rewrite Hw1. }
  assert (Hnext : get_next_cycle_view s None LAB_CYCLE_DIR_FORWARD = Some w2).
  { rewrite get_next_cycle_view_first, Hfirst, Hviews.
    cbn [view_next_no_head_stop split_at].
    rewrite bool_decide_eq_true_2 by reflexivity.
    cbn [app find]. now rewrite Hw2. }
  repeat apply conj; [exact Hfirst | exact Hnext | |].
  - unfold osd_begin. rewrite Hmode, Hsel.
    rewrite bool_decide_eq_true_2 by reflexivity. cbn [negb].
    cbn. exact Hnext.
  - unfold osd_begin. rewrite Hmode.
    rewrite bool_decide_eq_true_2 by reflexivity. reflexivity.
Qed.

Lemma osd_begin_first_forward_witness :
  cycle_view (osd (osd_begin (cycle_server [1; 2; 3]%positive)
                     LAB_CYCLE_DIR_FORWARD)) = Some 2%positive.
Proof.
  apply (osd_begin_first_forward (cycle_server [1; 2; 3]%positive)
           1%positive 2%positive [3%positive]);
    try (vm_compute; reflexivity).
  discriminate.
Defined.

(** ** Window switcher: restoring the preview *)

Lemma parent_of_set_parent sc n p (ch : gmap node_ref (list node_ref)) m :
  in_scene sc n →
  parent_of {| nodes := alter (set_node_parent (Some p)) n (nodes sc);
               children := ch |} m
  = if bool_decide (m = n) then Some p else parent_of sc m.
Proof.
  intros [nd Hnd]. unfold parent_of. cbn [nodes].
  case_bool_decide as Hm.
  - subst m. rewrite lookup_alter_eq, Hnd. reflexivity.
  - rewrite lookup_alter_ne by congruence. reflexivity.
Qed.

Lemma reparent_spec n p sc :
  in_scene sc n →
  parent_of sc n = Some p ∨ is_under sc (size (nodes sc)) n p = false →
  ∃ sc1,
    wlr_scene_node_reparent n (Some p) sc = Some sc1
    ∧ parent_of sc1 n = Some p
    ∧ (∀ m, m ≠ n → parent_of sc1 m = parent_of sc m)
    ∧ (∀ m, m ≠ n → m ∈ children_of sc p → m ∈ children_of sc1 p)
    ∧ (∀ m, enabled sc1 m = enabled sc m)
    ∧ (∀ m, in_scene sc1 m ↔ in_scene sc m).
Proof.
  intros Hn Hp. unfold wlr_scene_node_reparent. cbn [mbind option_bind].
  unfold ptr_eqb. case_bool_decide as Hpar.
  { exists sc. repeat apply conj; try reflexivity; auto. }
  destruct Hp as [Hp | Hp]; [congruence |]. rewrite Hp.
  eexists. split; [reflexivity |]. repeat apply conj.
  - rewrite parent_of_set_parent by exact Hn.
    now rewrite bool_decide_eq_true_2.
  - intros m Hm. rewrite parent_of_set_parent by exact Hn.
    now rewrite bool_decide_eq_false_2.
  - intros m Hm. unfold children_of. cbn [children].
    rewrite lookup_insert_eq. cbn [default].
    intros Hin. apply elem_of_app. left.
    destruct (parent_of sc n) as [old |]; [| exact Hin].
    rewrite lookup_alter_ne by congruence. exact Hin.
  - intros m. unfold enabled. cbn [nodes].
    destruct (decide (n = m)) as [-> | Hne].
    + rewrite lookup_alter_eq. now destruct (nodes sc !! m).
    + now rewrite lookup_alter_ne.
  - intros m. unfold in_scene. cbn [nodes].
    destruct (decide (n = m)) as [-> | Hne].
    + rewrite lookup_alter_eq. now rewrite fmap_is_Some.
    + now rewrite lookup_alter_ne.
Qed.

Lemma elem_of_unlink n m (l : list node_ref) :
  m ∈ unlink n l ↔ m ≠ n ∧ m ∈ l.
Proof. unfold unlink. rewrite list_elem_of_filter. reflexivity. Qed.

Lemma link_after_elem a n (l : list node_ref) :
  a ∈ l →
  ∃ l1 l2, l = l1 ++ a :: l2 ∧ link_after a n l = l1 ++ a :: n :: l2.
Proof.
  induction l as [| m rest IH]; intros Ha; [now apply elem_of_nil in Ha |].
  cbn [link_after]. case_bool_decide as Hm.
  - subst m. exists [], rest. split; reflexivity.
  - apply elem_of_cons in Ha as [-> | Ha]; [congruence |].
    destruct (IH Ha) as (l1 & l2 & -> & ->).
    exists (m :: l1), l2. split; reflexivity.
Qed.

Lemma place_above_spec n a p sc :
  n ≠ a → parent_of sc n = Some p → parent_of sc a = Some p →
  a ∈ children_of sc p →
  ∃ sc2,
    wlr_scene_node_place_above n a sc = Some sc2
    ∧ nodes sc2 = nodes sc
    ∧ ∃ l1 l2, children_of sc2 p = l1 ++ a :: n :: l2.
Proof.
  intros Hne Hn Ha Hin. unfold wlr_scene_node_place_above.
  rewrite bool_decide_eq_false_2 by exact Hne. rewrite Hn, Ha.
  unfold ptr_eqb. rewrite bool_decide_eq_true_2 by reflexivity. cbn [negb].
  eexists. split; [reflexivity |]. split; [reflexivity |].
  unfold children_of in *. cbn [children]. rewrite lookup_alter_eq.
  destruct (children sc !! p) as [l |];
    cbn [default fmap option_fmap option_map] in *;
    [| now apply elem_of_nil in Hin].
  destruct (link_after_elem a n (unlink n l)) as (l1 & l2 & _ & Hl).
  { apply elem_of_unlink. split; [congruence | exact Hin]. }
  exists l1, l2. exact Hl.
Qed.

Lemma parent_of_set_enabled n b sc m :
  parent_of (wlr_scene_node_set_enabled n b sc) m = parent_of sc m.
Proof.
  unfold parent_of, wlr_scene_node_set_enabled. cbn [nodes].
  destruct (decide (n = m)) as [-> | Hne].
  - rewrite lookup_alter_eq. now destruct (nodes sc !! m).
  - now rewrite lookup_alter_ne.
Qed.

Lemma children_of_set_enabled n b sc p :
  children_of (wlr_scene_node_set_enabled n b sc) p = children_of sc p.
Proof. reflexivity. Qed.

Lemma parent_of_lower_to_bottom n sc m :
  parent_of (wlr_scene_node_lower_to_bottom n sc) m = parent_of sc m.
Proof.
  unfold wlr_scene_node_lower_to_bottom.
  destruct (parent_of sc n); reflexivity.
Qed.

Lemma in_scene_lower_to_bottom n sc m :
  in_scene (wlr_scene_node_lower_to_bottom n sc) m ↔ in_scene sc m.
Proof.
  unfold wlr_scene_node_lower_to_bottom.
  destruct (parent_of sc n); reflexivity.
Qed.

(** What [restore_preview_node] leaves behind: the previewed node is a
    child of its recorded parent again, right above the recorded anchor
    when there is one, and disabled again when it was disabled before the
    preview; nothing of the preview stays recorded. *)
Lemma restore_preview_node_restores s :
  preview_wf s →
  ∃ s1,
    restore_preview_node s = Some s1
    ∧ input_mode s1 = input_mode s
    ∧ views s1 = views s
    ∧ view_table s1 = view_table s
    ∧ cycle_view (osd s1) = cycle_view (osd s)
    ∧ preview_outline (osd s1) = preview_outline (osd s)
    ∧ preview_node (osd s1) = None
    ∧ ∀ n,
        preview_node (osd s) = Some n →
        parent_of (server_scene s1) n = preview_parent (osd s)
        ∧ (∀ a, preview_anchor (osd s) = Some a →
                ∃ p l1 l2,
                  preview_parent (osd s) = Some p
                  ∧ children_of (server_scene s1) p = l1 ++ a :: n :: l2)
        ∧ (preview_was_enabled (osd s) = false →
           enabled (server_scene s1) n = Some false).
Proof.
  unfold preview_wf, restore_preview_node.
  destruct (preview_node (osd s)) as [n |] eqn:Hnode.
  2: { intros _. exists s. repeat apply conj; try reflexivity.
       exact Hnode. intros n [=]. }
  cbv zeta. intros (Hn & p & Hp & Hcyc & Hanchor). rewrite Hp.
  destruct (reparent_spec n p (server_scene s) Hn Hcyc)
    as (sc1 & -> & Hpar1 & Hother1 & Hch1 & Hen1 & Hin1).
  cbn [mbind option_bind].
  assert (Hplaced :
    ∃ sc2,
      match preview_anchor (osd s) with
      | Some a => wlr_scene_node_place_above n a sc1
      | None => Some (wlr_scene_node_lower_to_bottom n sc1)
      end = Some sc2
      ∧ parent_of sc2 n = Some p
      ∧ in_scene sc2 n
      ∧ ∀ a, preview_anchor (osd s) = Some a →
             ∃ l1 l2, children_of sc2 p = l1 ++ a :: n :: l2).
  { destruct (preview_anchor (osd s)) as [a |].
    - destruct Hanchor as (Hne & Hpa & Hina).
      destruct (place_above_spec n a p sc1) as (sc2 & -> & Hnodes & Hl);
        [congruence | exact Hpar1 | | |].
      + rewrite Hother1 by exact Hne. exact Hpa.
      + apply Hch1; assumption.
      + exists sc2. repeat apply conj; [reflexivity | | |].
        * unfold parent_of in *. now rewrite Hnodes.
        * unfold in_scene. rewrite Hnodes. now apply Hin1.
        * intros a' [= <-]. exact Hl.
    - eexists. repeat apply conj; [reflexivity | | |].
      + now rewrite parent_of_lower_to_bottom.
      + apply in_scene_lower_to_bottom. now apply Hin1.
      + intros a [=]. }
  destruct Hplaced as (sc2 & -> & Hpar2 & Hin2 & Hl2).
  cbn [mbind option_bind].
  eexists. split; [reflexivity |].
  repeat apply conj; try reflexivity.
  intros n' [= <-]. cbn [server_scene set_osd set_scene].
  repeat apply conj.
  - destruct (preview_was_enabled (osd s)); cbn [negb];
      rewrite ?parent_of_set_enabled; exact Hpar2.
  - intros a Ha. destruct (Hl2 a Ha) as (l1 & l2 & Hl).
    exists p, l1, l2. split; [reflexivity |].
    destruct (preview_was_enabled (osd s)); cbn [negb];
      rewrite ?children_of_set_enabled; exact Hl.
  - intros ->. cbn [negb]. rewrite enabled_set_enabled.
    rewrite bool_decide_eq_true_2 by reflexivity.
    apply in_scene_enabled in Hin2 as [e ->]. reflexivity.
Qed.

(** ** Window switcher: destruction of the selected view *)

Lemma split_at_app v (l pre post : list view_ref) :
  split_at v l = Some (pre, post) → l = pre ++ v :: post.
Proof.
  revert pre. induction l as [| w rest IH]; intros pre; [discriminate |].
  cbn [split_at]. case_bool_decide as Hw.
  - intros [= <- <-]. now subst w.
  - destruct (split_at v rest) as [[pre' post'] |]; [| discriminate].
    cbn [mbind option_bind]. intros [= <- <-].
    cbn [app]. f_equal. now apply IH.
Qed.

(** A backward step from [v] comes back to [v] when no other view of the
    list is a candidate of the window switcher. *)
Lemma view_prev_no_head_stop_alone (head : list view_ref) v criteria :
  (∀ w, w ∈ head → criteria w = true → w = v) →
  view_prev_no_head_stop head (Some v) criteria = Some v.
Proof.
  intros Halone. unfold view_prev_no_head_stop.
  destruct (split_at v head) as [[pre post] |] eqn:Hsplit; [| reflexivity].
  apply split_at_app in Hsplit.
  destruct (find criteria (rev pre ++ rev post)) as [w |] eqn:Hfind;
    [| reflexivity].
  apply find_some in Hfind as [Hin Hw]. f_equal. apply Halone; [| exact Hw].
  subst head. apply list_elem_of_In.
  apply in_app_or in Hin as [Hin | Hin]; apply in_rev in Hin;
    apply in_or_app; [now left | right; now right].
Qed.


Lemma preview_server_wf : preview_wf preview_server.
Proof.
  split; [eexists; vm_compute; reflexivity |].
  exists 10%positive. repeat apply conj.
  - reflexivity.
  - right. vm_compute. reflexivity.
  - discriminate.
  - vm_compute. reflexivity.
  - vm_compute. apply list_elem_of_In. now left.
Defined.


(** ** Resize edges *)

Lemma ssd_resize_edges_resize_parts t :
  ssd_resize_edges t ≠ WLR_EDGE_NONE ↔ t ∈ resize_parts.
Proof.
  rewrite <- (bool_decide_eq_true (t ∈ resize_parts)).
  destruct t; vm_compute; split; intros H; congruence.
Qed.

(** X1.  Between two parts that resize, a straight edge or a corner each,
    [ssd_part_contains] holds exactly when every edge bit of the whole is an
    edge bit of the candidate: an edge contains itself and its two corners,
    a corner only itself. *)
Theorem ssd_part_contains_resize_edges whole candidate :
  ssd_resize_edges whole ≠ WLR_EDGE_NONE →
  ssd_resize_edges candidate ≠ WLR_EDGE_NONE →
  ssd_part_contains whole candidate
  = bool_decide (Z.land (ssd_resize_edges candidate) (ssd_resize_edges whole)
                 = ssd_resize_edges whole).
Proof.
  intros Hw Hc. destruct whole; try (now contradiction Hw);
    destruct candidate; try (now contradiction Hc); vm_compute; reflexivity.
Qed.

Lemma ssd_part_contains_resize_edges_witness :
  ssd_part_contains LAB_SSD_PART_TOP LAB_SSD_PART_CORNER_TOP_RIGHT
  = bool_decide (Z.land (ssd_resize_edges LAB_SSD_PART_CORNER_TOP_RIGHT)
                   (ssd_resize_edges LAB_SSD_PART_TOP)
                 = ssd_resize_edges LAB_SSD_PART_TOP).
Proof.
  apply ssd_part_contains_resize_edges; vm_compute; discriminate.
Defined.

(** X2.  For a view whose box has [int]s as bounds and a corner range that
    is an [int]: what [get_resizing_type] returns is [LAB_SSD_NONE] or a
    part that resizes, never a button, the titlebar or the client; and the
    edge bits of the result say where the cursor is: the top bit is set
    exactly when the cursor is in the top zone, the left bit exactly when it
    is in the left zone, the bottom and the right bit exactly when it is in
    the bottom or right zone and not in the opposite one. *)
Theorem get_resizing_type_edges rc d v c :
  ssd_view d = Some v →
  ssd_enabled v = true → fullscreen v = false →
  view_box_in_range v → int_range (resize_corner_range rc) →
  wlr_box_contains_point (view_box_of v) (cursor_x c) (cursor_y c) = false →
  let box := view_box_of v in
  let edges := ssd_resize_edges (get_resizing_type rc (Some d) (Some c)) in
  let top := (cursor_y c <? of_int (y box + corner_height rc box))%D in
  let bottom :=
    (cursor_y c >? of_int (y box + height box - corner_height rc box))%D in
  let left := (cursor_x c <? of_int (x box + corner_width rc box))%D in
  let right :=
    (cursor_x c >? of_int (x box + width box - corner_width rc box))%D in
  (get_resizing_type rc (Some d) (Some c) = LAB_SSD_NONE
   ↔ edges = WLR_EDGE_NONE)
  ∧ (get_resizing_type rc (Some d) (Some c) = LAB_SSD_NONE
     ↔ top || bottom || left || right = false)
  ∧ Z.testbit edges 0 = top
  ∧ Z.testbit edges 1 = bottom && negb top
  ∧ Z.testbit edges 2 = left
  ∧ Z.testbit edges 3 = right && negb left.
Proof.
  intros Hv He Hf _ _ Hout. cbv zeta.
  unfold get_resizing_type. cbn [mbind option_bind]. rewrite Hv, He, Hf.
  cbn [negb orb]. cbv zeta. rewrite Hout.
  destruct (cursor_y c <? of_int (y (view_box_of v)
                                 + corner_height rc (view_box_of v)))%D,
    (cursor_y c >? of_int (y (view_box_of v) + height (view_box_of v)
                           - corner_height rc (view_box_of v)))%D,
    (cursor_x c <? of_int (x (view_box_of v)
                           + corner_width rc (view_box_of v)))%D,
    (cursor_x c >? of_int (x (view_box_of v) + width (view_box_of v)
                           - corner_width rc (view_box_of v)))%D;
    vm_compute; repeat apply conj; try reflexivity; intros H; congruence.
Qed.

Lemma get_resizing_type_edges_witness :
  Z.testbit
    (ssd_resize_edges
       (get_resizing_type wide_range (Some (ssd_of_view small_view))
          (Some (cursor_at 19 (-5))))) 0 = true.
Proof.
  apply (get_resizing_type_edges wide_range (ssd_of_view small_view)
           small_view (cursor_at 19 (-5)));
    [reflexivity | reflexivity | reflexivity | exact small_view_in_range
    | exact wide_range_in_range | vm_compute; reflexivity].
Defined.

(** ** The order of doubles *)

Lemma SFcompare_antisym a b :
  SFcompare b a = CompOpp <$> SFcompare a b.
Proof.
  destruct a as [sa | sa | | sa ma ea], b as [sb | sb | | sb mb eb];
    try (try destruct sa; try destruct sb; reflexivity).
  cbn [SFcompare fmap option_fmap option_map]. f_equal.
  rewrite (Z.compare_antisym ea eb).
  change (Pos.compare_cont Eq mb ma) with (mb ?= ma)%positive.
  change (Pos.compare_cont Eq ma mb) with (ma ?= mb)%positive.
  rewrite (Pos.compare_antisym ma mb).
  destruct sa, sb, (ea ?= eb), (ma ?= mb)%positive; reflexivity.
Qed.

(** Of two doubles that are no NaN one is below the other or they are
    equal: [a >= b] fails only for [a < b]. *)
Lemma double_ge_false_lt a b :
  a ≠ S754_nan → b ≠ S754_nan →
  (a >=? b)%D = false → (a <? b)%D = true.
Proof.
  intros Ha Hb. unfold double_ge, double_lt, SFleb, SFltb.
  rewrite (SFcompare_antisym a b).
  destruct (SFcompare a b) as [[] |] eqn:Hc; cbn; try congruence.
  destruct a as [| | |], b as [| | |]; try congruence; try discriminate Hc.
  all: cbn in Hc; repeat match type of Hc with
                         | context [if ?s then _ else _] => destruct s
                         end; discriminate Hc.
Qed.

Lemma double_lt_false_ge a b :
  a ≠ S754_nan → b ≠ S754_nan →
  (a <? b)%D = false → (a >=? b)%D = true.
Proof.
  intros Ha Hb. unfold double_ge, double_lt, SFleb, SFltb.
  rewrite (SFcompare_antisym a b).
  destruct (SFcompare a b) as [[] |] eqn:Hc; cbn; try congruence.
  destruct a as [| | |], b as [| | |]; try congruence; try discriminate Hc.
  all: cbn in Hc; repeat match type of Hc with
                         | context [if ?s then _ else _] => destruct s
                         end; discriminate Hc.
Qed.

Lemma Pos_compare_cont_Eq p q : Pos.compare_cont Eq p q = (p ?= q)%positive.
Proof. reflexivity. Qed.

(** [a < b] and [b <= c] give [a < c]. *)
Lemma SFcompare_lt_le_trans a b c :
  SFcompare a b = Some Lt →
  SFcompare b c = Some Lt ∨ SFcompare b c = Some Eq →
  SFcompare a c = Some Lt.
Proof.
  destruct a as [sa | sa | | sa ma ea], b as [sb | sb | | sb mb eb],
    c as [sc | sc | | sc mc ec];
    try destruct sa; try destruct sb; try destruct sc;
    cbn [SFcompare]; intros Hab [Hbc | Hbc];
    try discriminate Hab; try discriminate Hbc; try reflexivity;
    injection Hab as Hab; injection Hbc as Hbc; f_equal;
    rewrite ?Pos_compare_cont_Eq in *;
    destruct (Z.compare_spec ea eb), (Z.compare_spec eb ec),
      (Z.compare_spec ea ec);
    try discriminate Hab; try discriminate Hbc; try lia; try reflexivity;
    subst;
    destruct (Pos.compare_spec ma mb), (Pos.compare_spec mb mc),
      (Pos.compare_spec ma mc);
    try discriminate Hab; try discriminate Hbc; try lia; try reflexivity.
Qed.

Lemma double_lt_le_int a i j :
  int_range i → int_range j → i ≤ j →
  (a <? of_int i)%D = true → (a <? of_int j)%D = true.
Proof.
  intros Hi Hj Hij. unfold double_lt, SFltb.
  destruct (SFcompare a (of_int i)) as [[] |] eqn:Hc; try discriminate.
  intros _. erewrite SFcompare_lt_le_trans; [reflexivity | exact Hc |].
  rewrite SFcompare_of_int by assumption.
  destruct (Z.compare_spec i j); auto. lia.
Qed.

Lemma double_ge_gt_int a i j :
  int_range i → int_range j → j < i →
  (a >=? of_int i)%D = true → (a >? of_int j)%D = true.
Proof.
  intros Hi Hj Hij. unfold double_ge, double_gt, SFleb, SFltb.
  destruct (SFcompare (of_int i) a) as [[] |] eqn:Hc; try discriminate;
    intros _;
    (erewrite (SFcompare_lt_le_trans (of_int j) (of_int i) a);
     [reflexivity | | rewrite Hc; auto]);
    rewrite SFcompare_of_int by assumption;
    now apply f_equal, Z.compare_lt_iff.
Qed.

Lemma of_int_not_nan i : int_range i → of_int i ≠ S754_nan.
Proof.
  unfold int_range, INT_MIN, INT_MAX. intros Hi.
  destruct i as [| p | p]; [discriminate | |].
  - rewrite of_int_pos by lia. discriminate.
  - rewrite of_int_neg by lia. discriminate.
Qed.

(** The corner zone of a box of at least 2 by 2, for a corner range of at
    least 1, is at least 1 and at most half the box. *)
Lemma corner_size_bounds range size :
  1 ≤ range → 2 ≤ size →
  1 ≤ Z.max 0 (Z.min range (size ÷ 2))
  ∧ 2 * Z.max 0 (Z.min range (size ÷ 2)) ≤ size.
Proof.
  intros Hr Hs. rewrite Z.quot_div_nonneg by lia.
  pose proof (Z.mul_div_le size 2). pose proof (Z.mul_succ_div_gt size 2).
  lia.
Qed.

(** ** The size of the corner zones *)

Lemma double_gt_ge_int a i j :
  int_range i → int_range j → j ≤ i →
  (a >? of_int i)%D = true → (a >? of_int j)%D = true.
Proof.
  intros Hi Hj Hji. destruct (Z.eq_dec j i) as [-> | Hne]; [trivial |].
  unfold double_gt, SFltb.
  destruct (SFcompare (of_int i) a) as [[] |] eqn:Hc; try discriminate.
  intros _.
  erewrite (SFcompare_lt_le_trans (of_int j) (of_int i) a);
    [reflexivity | | left; exact Hc].
  rewrite SFcompare_of_int by assumption.
  apply f_equal, Z.compare_lt_iff. lia.
Qed.

Lemma quot2_bounds size : 0 ≤ size → 0 ≤ size ÷ 2 ≤ size.
Proof.
  intros Hs. rewrite Z.quot_div_nonneg by lia.
  pose proof (Z.div_pos size 2 Hs). pose proof (Z.mul_div_le size 2). lia.
Qed.

(** C5.  [get_resizing_type] classifies a cursor outside the box of the
    view by corner zones whose width and height are the configured corner
    range clamped between 0 and half the width and half the height of the
    box, for every range and every box whose bounds are [int]s.  So the
    zones never exceed half the box: when the sizes of the box are not
    negative, a result that resizes at the left edge comes from a cursor in
    the left half of the box, one at the right edge from the right half, one
    at the top from the top half and one at the bottom from the bottom half,
    however large the range.  For a range of 10000 on a box of 40 by 40 the
    zones are 20 by 20: above the box, the corner on the left ends at 19 and
    the corner on the right begins at 21. *)
Theorem corner_zone_clamped :
  (∀ rc d v c,
      ssd_view d = Some v →
      ssd_enabled v = true → fullscreen v = false →
      view_box_in_range v → int_range (resize_corner_range rc) →
      let box := view_box_of v in
      wlr_box_contains_point box (cursor_x c) (cursor_y c) = false →
      get_resizing_type rc (Some d) (Some c)
      = classify_zones box
          (clamp (resize_corner_range rc) 0 (width box ÷ 2))
          (clamp (resize_corner_range rc) 0 (height box ÷ 2)) c)
  ∧ (∀ rc d v c,
        ssd_view d = Some v →
        ssd_enabled v = true → fullscreen v = false →
        view_box_in_range v → int_range (resize_corner_range rc) →
        let box := view_box_of v in
        let edges :=
          ssd_resize_edges (get_resizing_type rc (Some d) (Some c)) in
        0 ≤ width box → 0 ≤ height box →
        (Z.testbit edges 2 = true →
         (cursor_x c <? of_int (x box + width box ÷ 2))%D = true)
        ∧ (Z.testbit edges 3 = true →
           (cursor_x c >? of_int (x box + width box - width box ÷ 2))%D
           = true)
        ∧ (Z.testbit edges 0 = true →
           (cursor_y c <? of_int (y box + height box ÷ 2))%D = true)
        ∧ (Z.testbit edges 1 = true →
           (cursor_y c >? of_int (y box + height box - height box ÷ 2))%D
           = true))
  ∧ (∀ rc d v c,
        ssd_view d = Some v →
        ssd_enabled v = true → fullscreen v = false →
        view_box_in_range v →
        resize_corner_range rc = 10000 →
        let box := view_box_of v in
        width box = 40 → height box = 40 →
        wlr_box_contains_point box (cursor_x c) (cursor_y c) = false →
        get_resizing_type rc (Some d) (Some c) = classify_zones box 20 20 c)
  ∧ get_resizing_type wide_range (Some (ssd_of_view small_view))
      (Some (cursor_at 19 (-5))) = LAB_SSD_PART_CORNER_TOP_LEFT
  ∧ get_resizing_type wide_range (Some (ssd_of_view small_view))
      (Some (cursor_at 20 (-5))) = LAB_SSD_PART_TOP
  ∧ get_resizing_type wide_range (Some (ssd_of_view small_view))
      (Some (cursor_at 21 (-5))) = LAB_SSD_PART_CORNER_TOP_RIGHT
  ∧ get_resizing_type wide_range (Some (ssd_of_view small_view))
      (Some (cursor_at 39 (-5))) = LAB_SSD_PART_CORNER_TOP_RIGHT.
Proof.
  assert (Hzones : ∀ rc d v c,
    ssd_view d = Some v → ssd_enabled v = true → fullscreen v = false →
    wlr_box_contains_point (view_box_of v) (cursor_x c) (cursor_y c)
    = false →
    get_resizing_type rc (Some d) (Some c)
    = classify_zones (view_box_of v)
        (clamp (resize_corner_range rc) 0 (width (view_box_of v) ÷ 2))
        (clamp (resize_corner_range rc) 0 (height (view_box_of v) ÷ 2)) c).
  { intros rc d v c Hv He Hf Hout. unfold get_resizing_type.
    cbn [mbind option_bind]. rewrite Hv, He, Hf. cbn [negb orb]. cbv zeta.
    rewrite Hout. reflexivity. }
  split; [| split; [| split]].
  - intros rc d v c Hv He Hf _ _ box Hout. now apply Hzones.
  - intros rc d v c Hv He Hf Hbox Hrc box edges Hw Hh.
    destruct (quot2_bounds (width box) Hw) as [Hw0 Hw2].
    destruct (quot2_bounds (height box) Hh) as [Hh0 Hh2].
    destruct Hbox as (_ & _ & _ & Hx & Hy & _ & _ & Hxw & Hyh).
    fold box in Hx, Hy, Hxw, Hyh.
    subst edges.
    destruct (wlr_box_contains_point box (cursor_x c) (cursor_y c))
      eqn:Hout.
    { assert (Hnone : get_resizing_type rc (Some d) (Some c) = LAB_SSD_NONE).
      { unfold get_resizing_type. cbn [mbind option_bind].
        rewrite Hv, He, Hf. cbn [negb orb]. cbv zeta. fold box.
        now rewrite Hout. }
      rewrite Hnone. repeat apply conj; intros Hbit; discriminate Hbit. }
    rewrite (Hzones rc d v c Hv He Hf Hout). fold box.
    unfold classify_zones, clamp.
    set (cw := Z.max 0 (Z.min (resize_corner_range rc) (width box ÷ 2))).
    set (ch := Z.max 0 (Z.min (resize_corner_range rc) (height box ÷ 2))).
    assert (Hcw : 0 ≤ cw ≤ width box ÷ 2) by (subst cw; lia).
    assert (Hch : 0 ≤ ch ≤ height box ÷ 2) by (subst ch; lia).
    unfold int_range in Hx, Hy, Hxw, Hyh.
    destruct (cursor_x c <? of_int (x box + cw))%D eqn:Hleft,
      (cursor_x c >? of_int (x box + width box - cw))%D eqn:Hright,
      (cursor_y c <? of_int (y box + ch))%D eqn:Htop,
      (cursor_y c >? of_int (y box + height box - ch))%D eqn:Hbottom;
      cbn [andb];
      repeat apply conj; intros Hbit;
      try discriminate Hbit;
      first
        [ apply (double_lt_le_int _ (x box + cw)); trivial;
          unfold int_range; lia
        | apply (double_gt_ge_int _ (x box + width box - cw)); trivial;
          unfold int_range; lia
        | apply (double_lt_le_int _ (y box + ch)); trivial;
          unfold int_range; lia
        | apply (double_gt_ge_int _ (y box + height box - ch)); trivial;
          unfold int_range; lia ].
  - intros rc d v c Hv He Hf _ Hrc box Hw Hh Hout.
    rewrite (Hzones rc d v c Hv He Hf Hout). fold box.
    rewrite Hrc, Hw, Hh. reflexivity.
  - repeat apply conj; vm_compute; reflexivity.
Qed.

Lemma corner_zone_clamped_witness :
  get_resizing_type wide_range (Some (ssd_of_view small_view))
    (Some (cursor_at 39 (-5)))
  = classify_zones (view_box_of small_view) 20 20 (cursor_at 39 (-5)).
Proof.
  apply (proj1 (proj2 (proj2 corner_zone_clamped)) wide_range
           (ssd_of_view small_view) small_view (cursor_at 39 (-5)));
    [reflexivity | reflexivity | reflexivity | exact small_view_in_range
    | reflexivity | reflexivity | reflexivity | vm_compute; reflexivity].
Defined.



(** ** Comparison of strings without case *)

Lemma tolower_toupper c : tolower (toupper c) = tolower c.
Proof. destruct c as [[] [] [] [] [] [] [] []]; reflexivity. Qed.

Lemma tolower_tolower c : tolower (tolower c) = tolower c.
Proof. destruct c as [[] [] [] [] [] [] [] []]; reflexivity. Qed.

Lemma tolower_not_nul c : char_code c ≠ 0 → char_code (tolower c) ≠ 0.
Proof.
  destruct c as [[] [] [] [] [] [] [] []]; vm_compute; congruence.
Qed.

Lemma char_code_inj c d : char_code c = char_code d → c = d.
Proof.
  unfold char_code. intros H. apply N2Z.inj in H.
  rewrite <- (ascii_N_embedding c), <- (ascii_N_embedding d). now rewrite H.
Qed.

Lemma strcasecmp_map f l r :
  (∀ c, tolower (f c) = tolower c) →
  strcasecmp (string_map f l) r = strcasecmp l r.
Proof.
  intros Hf. revert r. induction l as [| c l IH]; intros [| d r];
    cbn [strcasecmp string_map]; rewrite ?Hf; try reflexivity.
  now rewrite IH.
Qed.

Lemma strcasecmp_zero_iff l r :
  is_c_string l → is_c_string r →
  strcasecmp l r = 0 ↔ string_lower l = string_lower r.
Proof.
  unfold is_c_string, string_lower. revert r.
  induction l as [| c l IH]; intros [| d r] Hl Hr;
    cbn [strcasecmp string_map list_ascii_of_string] in *.
  - tauto.
  - apply Forall_cons in Hr as [Hd _]. apply tolower_not_nul in Hd.
    split; [lia | discriminate].
  - apply Forall_cons in Hl as [Hc _]. apply tolower_not_nul in Hc.
    split; [lia | discriminate].
  - apply Forall_cons in Hl as [_ Hl]. apply Forall_cons in Hr as [_ Hr].
    case_bool_decide as Hcd.
    + rewrite (IH r Hl Hr), Hcd. split; [now intros -> | now intros [=]].
    + split; [| now intros [=]].
      intros H. exfalso. apply Hcd, char_code_inj. lia.
Qed.

(** X4.  [ssd_mode_parse] ignores case: a name in upper or in lower case
    parses as the name itself.  A C string parses to the mode whose name,
    "none", "border" or "full", it is in lower case, every other string to
    [LAB_SSD_MODE_INVALID], and so does [NULL]. *)
Theorem ssd_mode_parse_caseless :
  (∀ s, ssd_mode_parse (Some (string_upper s)) = ssd_mode_parse (Some s)
        ∧ ssd_mode_parse (Some (string_lower s)) = ssd_mode_parse (Some s))
  ∧ (∀ s, is_c_string s →
          ssd_mode_parse (Some s)
          = if decide (string_lower s = "none"%string) then LAB_SSD_MODE_NONE
            else if decide (string_lower s = "border"%string)
                 then LAB_SSD_MODE_BORDER
            else if decide (string_lower s = "full"%string)
                 then LAB_SSD_MODE_FULL
            else LAB_SSD_MODE_INVALID)
  ∧ ssd_mode_parse None = LAB_SSD_MODE_INVALID.
Proof.
  repeat apply conj; [| | reflexivity].
  - intros s. unfold ssd_mode_parse, string_upper, string_lower.
    rewrite !(strcasecmp_map toupper) by apply tolower_toupper.
    now rewrite !(strcasecmp_map tolower) by apply tolower_tolower.
  - intros s Hs. unfold ssd_mode_parse.
    assert (Hlit : ∀ lit : string,
               is_c_string lit → string_lower lit = lit →
               (strcasecmp s lit =? 0) = bool_decide (string_lower s = lit)).
    { intros lit Hlit Hlow. apply eq_true_iff_eq.
      rewrite Z.eqb_eq, bool_decide_eq_true.
      now rewrite (strcasecmp_zero_iff s lit Hs Hlit), Hlow. }
    rewrite !Hlit;
      try reflexivity;
      try (unfold is_c_string; cbn; repeat constructor; discriminate).
    repeat case_decide; repeat case_bool_decide; try reflexivity; congruence.
Qed.

Lemma ssd_mode_parse_caseless_witness :
  ssd_mode_parse (Some "Border"%string) = LAB_SSD_MODE_BORDER.
Proof.
  rewrite (proj1 (proj2 ssd_mode_parse_caseless) "Border"%string).
  - reflexivity.
  - unfold is_c_string. cbn. repeat constructor; discriminate.
Defined.

(** ** Workspace indices *)

Lemma digit_value_is_digit c :
  digit_value c = if is_digit c then Some (char_code c - 48) else None.
Proof. reflexivity. Qed.

Lemma read_digits_all acc s :
  string_forall is_digit s = true →
  read_digits acc s = (decimal_from acc s, ""%string).
Proof.
  revert acc. induction s as [| c s IH]; intros acc Hs; [reflexivity |].
  cbn [string_forall] in Hs. apply andb_true_iff in Hs as [Hc Hs].
  cbn [read_digits decimal_from]. rewrite digit_value_is_digit, Hc.
  now apply IH.
Qed.

Lemma read_digits_split acc s n rest :
  read_digits acc s = (n, rest) →
  ∃ ds, s = ds +:+ rest ∧ string_forall is_digit ds = true
        ∧ n = decimal_from acc ds.
Proof.
  revert acc. induction s as [| c s IH]; intros acc.
  - intros [= <- <-]. now exists ""%string.
  - cbn [read_digits]. rewrite digit_value_is_digit.
    destruct (is_digit c) eqn:Hc.
    + intros H. destruct (IH _ H) as (ds & -> & Hds & ->).
      exists (String c ds). cbn [string_forall decimal_from].
      now rewrite Hc, Hds.
    + intros [= <- <-]. now exists ""%string.
Qed.

Lemma decimal_from_nonneg acc s :
  0 ≤ acc → string_forall is_digit s = true → acc ≤ decimal_from acc s.
Proof.
  revert acc. induction s as [| c s IH]; intros acc Hacc Hs; [cbn; lia |].
  cbn [string_forall] in Hs. apply andb_true_iff in Hs as [Hc Hs].
  cbn [decimal_from]. unfold is_digit in Hc.
  etransitivity; [| apply IH; [lia | exact Hs]]. lia.
Qed.

Lemma string_app_nil_r (s : string) : s +:+ "" = s.
Proof.
  induction s as [| c s IH]; [reflexivity |].
  change (String c (s +:+ "") = String c s). now f_equal.
Qed.

Lemma skip_spaces_split s :
  ∃ ws, s = ws +:+ skip_spaces s ∧ string_forall isspace ws = true.
Proof.
  induction s as [| c s (ws & IH & Hws)]; [now exists ""%string |].
  cbn [skip_spaces]. destruct (isspace c) eqn:Hc.
  - exists (String c ws). cbn [string_forall]. rewrite Hc, Hws.
    split; [| reflexivity].
    change (String c s = String c (ws +:+ skip_spaces s)). now f_equal.
  - now exists ""%string.
Qed.

Lemma skip_spaces_digit c s :
  is_digit c = true → skip_spaces (String c s) = String c s.
Proof.
  intros Hc. cbn [skip_spaces].
  replace (isspace c) with false; [reflexivity |].
  unfold is_digit, isspace in *. lia.
Qed.

Lemma strtol_digits s :
  s ≠ ""%string → string_forall is_digit s = true →
  strtol s
  = if LONG_MAX <? decimal_value s then (LONG_MAX, true, ""%string)
    else (decimal_value s, false, ""%string).
Proof.
  intros Hne Hs. destruct s as [| c s]; [congruence |].
  pose proof Hs as Hall. cbn [string_forall] in Hs.
  apply andb_true_iff in Hs as [Hc Hs].
  unfold strtol. rewrite skip_spaces_digit by exact Hc.
  assert (Hsign : c ≠ "-"%char ∧ c ≠ "+"%char).
  { split; intros ->; discriminate Hc. }
  destruct Hsign as [Hminus Hplus].
  replace (match String c s with
           | String "-"%char s' => (true, s')
           | String "+"%char s' => (false, s')
           | _ => (false, String c s)
           end) with (false, String c s).
  2: { destruct c as [[] [] [] [] [] [] [] []]; try reflexivity; congruence. }
  rewrite digit_value_is_digit, Hc, (read_digits_all 0 _ Hall).
  fold (decimal_value (String c s)).
  destruct (LONG_MAX <? decimal_value (String c s)); [reflexivity |].
  replace (decimal_value (String c s) <? LONG_MIN) with false; [reflexivity |].
  symmetry. apply Z.ltb_ge.
  pose proof (decimal_from_nonneg 0 (String c s) (Z.le_refl 0) Hall).
  unfold decimal_value, LONG_MIN. lia.
Qed.

(** X5.  [parse_workspace_index] reads the numbers that span the whole
    name: a name of decimal digits gives the number it denotes, or 0 when
    that is no [long]; the result is never negative; and a result other
    than 0 comes only from a name that is, after white space and an
    optional plus sign, a number in decimal digits to its end, and is that
    number.  The names of the table in the source give what it says. *)
Theorem parse_workspace_index_decimal :
  (∀ s, s ≠ ""%string → string_forall is_digit s = true →
        parse_workspace_index s
        = if LONG_MAX <? decimal_value s then 0 else decimal_value s)
  ∧ (∀ s, 0 ≤ parse_workspace_index s ≤ LONG_MAX)
  ∧ (∀ s, parse_workspace_index s ≠ 0 →
          ∃ ws sign ds,
            s = ws +:+ sign +:+ ds
            ∧ string_forall isspace ws = true
            ∧ (sign = ""%string ∨ sign = "+"%string)
            ∧ ds ≠ ""%string
            ∧ string_forall is_digit ds = true
            ∧ parse_workspace_index s = decimal_value ds)
  ∧ parse_workspace_index "2nd desktop" = 0
  ∧ parse_workspace_index "-50" = 0
  ∧ parse_workspace_index "0" = 0
  ∧ parse_workspace_index "124" = 124
  ∧ parse_workspace_index "1.24" = 0.
Proof.
  assert (Hsound :
    ∀ s, parse_workspace_index s ≠ 0 →
         0 < parse_workspace_index s ≤ LONG_MAX
         ∧ ∃ ws sign ds,
             s = ws +:+ sign +:+ ds
             ∧ string_forall isspace ws = true
             ∧ (sign = ""%string ∨ sign = "+"%string)
             ∧ ds ≠ ""%string
             ∧ string_forall is_digit ds = true
             ∧ parse_workspace_index s = decimal_value ds).
  { intros s. unfold parse_workspace_index, strtol.
    destruct (skip_spaces_split s) as (ws & Hs & Hws).
    set (t := skip_spaces s) in *.
    assert (Hcases :
      ∃ negative sign u,
        t = sign +:+ u
        ∧ match t with
          | String "-"%char s' => (true, s')
          | String "+"%char s' => (false, s')
          | _ => (false, t)
          end = (negative, u)
        ∧ (negative = false → sign = ""%string ∨ sign = "+"%string)).
    { destruct t as [| c t']; [exists false, ""%string, ""%string; auto |].
      destruct (decide (c = "-"%char)) as [-> | Hm];
        [exists true, "-"%string, t'; repeat split; congruence |].
      destruct (decide (c = "+"%char)) as [-> | Hp];
        [exists false, "+"%string, t'; auto |].
      exists false, ""%string, (String c t'). repeat split; auto.
      destruct c as [[] [] [] [] [] [] [] []]; try reflexivity; congruence. }
    destruct Hcases as (negative & sign & u & Ht & -> & Hsign).
    assert (Hzero : ∀ e : string,
               (if false || negb (bool_decide (e = ""%string)) || (0 <? 0)
                then 0 else 0) = 0)
      by (intros e; now destruct (bool_decide (e = ""%string))).
    destruct u as [| c u']; [intros H; now contradiction H |].
    rewrite digit_value_is_digit.
    destruct (is_digit c) eqn:Hc; [| intros H; now contradiction H].
    destruct (read_digits 0 (String c u')) as [n rest] eqn:Hread.
    destruct (read_digits_split _ _ _ _ Hread) as (ds & Hu & Hds & Hn).
    pose proof (decimal_from_nonneg 0 ds (Z.le_refl 0) Hds) as Hpos.
    fold (decimal_value ds) in Hn, Hpos. subst n.
    destruct negative.
    - destruct (LONG_MAX <? - decimal_value ds) eqn:H1; [cbn; congruence |].
      destruct (- decimal_value ds <? LONG_MIN) eqn:H2; [cbn; congruence |].
      cbn [orb]. destruct (bool_decide (rest = ""%string)); cbn [negb orb];
        [| congruence].
      destruct (Z.ltb_spec (- decimal_value ds) 0); [congruence | lia].
    - destruct (LONG_MAX <? decimal_value ds) eqn:H1; [cbn; congruence |].
      replace (decimal_value ds <? LONG_MIN) with false
        by (symmetry; apply Z.ltb_ge; unfold LONG_MIN; lia).
      cbn [orb]. case_bool_decide as Hrest; cbn [negb orb]; [| congruence].
      destruct (Z.ltb_spec (decimal_value ds) 0); [lia |].
      intros Hnz. apply Z.ltb_ge in H1. split; [lia |].
      exists ws, sign, ds. subst rest.
      assert (Hds' : String c u' = ds).
      { rewrite Hu. apply string_app_nil_r. }
      repeat apply conj; auto.
      + rewrite Hs, Ht, Hds'. reflexivity.
      + intros ->. cbn in Hnz. congruence. }
  split; [| split; [| split; [| repeat apply conj; vm_compute; reflexivity]]].
  - intros s Hne Hs. unfold parse_workspace_index.
    rewrite strtol_digits by assumption.
    destruct (LONG_MAX <? decimal_value s); [reflexivity |].
    rewrite bool_decide_eq_true_2 by reflexivity. cbn [orb negb].
    pose proof (decimal_from_nonneg 0 s (Z.le_refl 0) Hs).
    fold (decimal_value s) in *.
    destruct (Z.ltb_spec (decimal_value s) 0); [lia | reflexivity].
  - intros s.
    destruct (Z.eq_dec (parse_workspace_index s) 0) as [-> | Hnz];
      [unfold LONG_MAX; lia |].
    destruct (Hsound s Hnz) as [? _]. lia.
  - intros s Hnz. now destruct (Hsound s Hnz).
Qed.

Lemma parse_workspace_index_decimal_witness :
  parse_workspace_index "007" = 7.
Proof.
  rewrite (proj1 parse_workspace_index_decimal "007"%string);
    [reflexivity | discriminate | reflexivity].
Defined.

(** ** Neighbouring workspaces *)

Lemma split_at_first v (pre post : list positive) :
  v ∉ pre → split_at v (pre ++ v :: post) = Some (pre, post).
Proof.
  induction pre as [| w pre IH]; intros Hv; cbn [app split_at].
  - now rewrite bool_decide_eq_true_2.
  - rewrite not_elem_of_cons in Hv. destruct Hv as [Hne Hv].
    rewrite bool_decide_eq_false_2 by congruence.
    rewrite (IH Hv). reflexivity.
Qed.

Lemma split_at_elem v (l : list positive) :
  v ∈ l → ∃ pre post, split_at v l = Some (pre, post) ∧ l = pre ++ v :: post.
Proof.
  intros Hv. apply list_elem_of_split_l in Hv as (pre & post & -> & Hpre).
  exists pre, post. split; [now apply split_at_first | reflexivity].
Qed.

(** X6.  In a list of distinct workspaces, for a workspace of the list:
    [get_prev] and [get_next] return workspaces of the list and undo each
    other, with and without wrapping; without wrapping there is no previous
    workspace exactly for the first one and no next one exactly for the
    last; with wrapping there always is one. *)
Theorem get_prev_get_next (l : list workspace_ref) c :
  NoDup l → c ∈ l →
  (∀ wrap p, get_prev c l wrap = Some p →
             p ∈ l ∧ get_next p l wrap = Some c)
  ∧ (∀ wrap n, get_next c l wrap = Some n →
               n ∈ l ∧ get_prev n l wrap = Some c)
  ∧ ((get_prev c l false = None) ↔ (head l = Some c))
  ∧ ((get_next c l false = None) ↔ (last l = Some c))
  ∧ is_Some (get_prev c l true)
  ∧ is_Some (get_next c l true).
Proof.
  intros Hnd Hc.
  destruct (split_at_elem c l Hc) as (pre & post & Hsplit & Hl).
  unfold get_prev, get_next. rewrite Hsplit. subst l.
  unfold workspace_ref, view_ref in *.
  assert (Hcpre : (c ∉ pre) ∧ (c ∉ post)).
  { apply NoDup_app in Hnd as (_ & Hdisj & Hnd).
    apply NoDup_cons in Hnd as [Hpost _]. split; [| exact Hpost].
    intros Hin. apply (Hdisj c Hin). now left. }
  destruct Hcpre as [Hcpre Hcpost].
  split; [| split; [| split; [| split; [| split]]]].
  - intros wrap p.
    destruct pre as [| w pre'] using rev_ind.
    + cbn [last app] in *. destruct wrap; cbn [negb]; [| discriminate].
      intros Hlast. split; [eapply last_Some_elem_of; exact Hlast |].
      apply last_Some in Hlast as (l' & Hl'). rewrite Hl' in Hnd |- *.
      rewrite split_at_first.
      * cbn [head negb]. rewrite <- Hl'. reflexivity.
      * apply NoDup_app in Hnd as (_ & Hdisj & _).
        intros Hin. apply (Hdisj p Hin). now left.
    + rewrite last_snoc. intros [= ->].
      split; [apply elem_of_app; left; apply elem_of_app; right; now left |].
      rewrite <- app_assoc. cbn [app].
      apply NoDup_app in Hnd as (Hnd & _).
      apply NoDup_app in Hnd as (_ & Hdisj & _).
      rewrite split_at_first
        by (intros Hin; apply (Hdisj p Hin); now left).
      reflexivity.
  - intros wrap n. destruct post as [| w post'].
    + cbn [head]. destruct wrap; cbn [negb]; [| discriminate].
      intros Hhead. split; [eapply head_Some_elem_of; exact Hhead |].
      destruct pre as [| w pre']; cbn [app head] in Hhead;
        injection Hhead as <-.
      * cbn [app split_at]. rewrite bool_decide_eq_true_2 by reflexivity.
        reflexivity.
      * cbn [app split_at]. rewrite bool_decide_eq_true_2 by reflexivity.
        cbn [last negb]. now rewrite last_cons, last_snoc.
    + cbn [head]. intros [= ->]. 
      split; [apply elem_of_app; right; right; now left |].
      rewrite (cons_middle c pre (n :: post')), app_assoc.
      rewrite split_at_first.
      * now rewrite last_snoc.
      * apply NoDup_app in Hnd as (_ & Hdisj & Hnd).
        apply NoDup_cons in Hnd as [Hcn Hnd].
        apply NoDup_cons in Hnd as [Hn _].
        rewrite elem_of_app, list_elem_of_singleton.
        intros [Hin | ->]; [apply (Hdisj n Hin); right; now left |].
        apply Hcn. now left.
  - cbn [negb]. destruct pre as [| w pre'].
    + cbn. split; reflexivity.
    + destruct (last (w :: pre')) eqn:Hlast.
      * split; [discriminate |]. cbn. intros [= ->].
        exfalso. apply Hcpre. now left.
      * apply last_None in Hlast. discriminate.
  - cbn [negb]. destruct post as [| w post'].
    + cbn [head]. now rewrite last_snoc.
    + cbn [head]. split; [discriminate |].
      rewrite last_app. rewrite !last_cons.
      destruct (last post') as [z |] eqn:Hlast.
      * intros [= ->]. exfalso. apply Hcpost. right.
        eapply last_Some_elem_of; exact Hlast.
      * intros [= ->]. exfalso. apply Hcpost. now left.
  - destruct (last pre); [eauto |]. cbn [negb].
    rewrite last_app. destruct (last (c :: post)) eqn:E; [eauto |].
    apply last_None in E. discriminate.
  - destruct (head post); [eauto |]. cbn [negb].
    destruct pre; cbn; eauto.
Qed.

Lemma get_prev_get_next_witness :
  get_prev 1%positive [1; 2; 3]%positive true = Some 3%positive
  ∧ get_next 3%positive [1; 2; 3]%positive true = Some 1%positive.
Proof.
  assert (Hnd : NoDup [1; 2; 3]%positive).
  { apply NoDup_ListNoDup. repeat constructor; cbn; intuition congruence. }
  assert (Hin : 1%positive ∈ [1; 2; 3]%positive) by now left.
  split; [reflexivity |].
  apply (proj1 (get_prev_get_next [1; 2; 3]%positive 1%positive Hnd Hin)
           true 3%positive).
  reflexivity.
Defined.

(** ** Looking up a workspace *)

Lemma workspace_at_lookup wants index (l : list workspace_ref) :
  index < wants →
  workspace_at wants index l = l !! Z.to_nat (wants - index - 1).
Proof.
  revert index. induction l as [| t l IH]; intros index Hlt; [reflexivity |].
  cbn [workspace_at]. destruct (Z.eqb_spec wants (index + 1)) as [-> | Hne].
  - now replace (index + 1 - index - 1) with 0 by lia.
  - rewrite IH by lia.
    replace (Z.to_nat (wants - index - 1))
      with (S (Z.to_nat (wants - (index + 1) - 1))) by lia.
    reflexivity.
Qed.

Lemma parse_workspace_index_nonneg name : 0 ≤ parse_workspace_index name.
Proof.
  unfold parse_workspace_index. destruct (strtol name) as [[index e] endptr].
  destruct (e || negb (bool_decide (endptr = ""%string))); [cbn; lia |].
  cbn [orb]. destruct (Z.ltb_spec index 0); lia.
Qed.

Lemma strcasecmp_refl s : strcasecmp s s = 0.
Proof.
  induction s as [| c s IH]; [reflexivity |].
  cbn [strcasecmp]. now rewrite bool_decide_eq_true_2.
Qed.

Lemma tolower_letter c :
  97 ≤ char_code (tolower c) ≤ 122 →
  isspace c = false ∧ digit_value c = None
  ∧ c ≠ "-"%char ∧ c ≠ "+"%char.
Proof.
  destruct c as [[] [] [] [] [] [] [] []]; vm_compute;
    intuition congruence.
Qed.

Lemma parse_workspace_index_letter c s :
  97 ≤ char_code (tolower c) ≤ 122 → parse_workspace_index (String c s) = 0.
Proof.
  intros Hc. apply tolower_letter in Hc as (Hsp & Hd & Hm & Hp).
  unfold parse_workspace_index, strtol. cbn [skip_spaces]. rewrite Hsp.
  assert (Hsign :
    match String c s with
    | String "-" s' => (true, s')
    | String "+" s' => (false, s')
    | _ => (false, String c s)
    end = (false, String c s)).
  { destruct c as [[] [] [] [] [] [] [] []]; try reflexivity; congruence. }
  rewrite Hsign, Hd. reflexivity.
Qed.

Lemma is_c_string_literal s :
  forallb (λ c, negb (char_code c =? 0)) (list_ascii_of_string s) = true →
  is_c_string s.
Proof.
  unfold is_c_string. rewrite forallb_forall, Forall_forall.
  intros H c Hc. apply list_elem_of_In in Hc. apply H in Hc.
  destruct (Z.eqb_spec (char_code c) 0); [discriminate | assumption].
Qed.

(** X7.  A name that [parse_workspace_index] reads as the number n > 0
    selects the n-th workspace of the list, whatever the workspaces are
    called: the lookup succeeds exactly when the list has at least n
    workspaces. *)
Theorem workspaces_find_index w anchor name wrap :
  parse_workspace_index name ≠ 0 →
  workspaces_find w anchor (Some name) wrap
  = workspaces_all w !! Z.to_nat (parse_workspace_index name - 1)
  ∧ (is_Some (workspaces_find w anchor (Some name) wrap)
     ↔ parse_workspace_index name ≤ Z.of_nat (length (workspaces_all w))).
Proof.
  intros Hne. pose proof (parse_workspace_index_nonneg name) as Hge.
  assert (Hfind : workspaces_find w anchor (Some name) wrap
    = workspaces_all w !! Z.to_nat (parse_workspace_index name - 1)).
  { unfold workspaces_find.
    destruct (Z.eqb_spec (parse_workspace_index name) 0) as [| _];
      [contradiction |].
    cbn [negb]. rewrite workspace_at_lookup by lia.
    f_equal. lia. }
  split; [exact Hfind |].
  rewrite Hfind, lookup_lt_is_Some. lia.
Qed.

Lemma workspaces_find_index_witness :
  workspaces_find three_workspaces 5%positive (Some "2"%string) false
  = Some 6%positive.
Proof.
  rewrite (proj1 (workspaces_find_index three_workspaces 5%positive
                    "2"%string false ltac:(vm_compute; discriminate))).
  reflexivity.
Defined.

(** X8.  The words current, last, left and right are recognised in any
    mix of upper and lower case and before any workspace name: they give
    the anchor, the last workspace, and the neighbours of the anchor by
    [get_prev] and [get_next]. *)
Theorem workspaces_find_keywords w anchor name wrap :
  is_c_string name →
  (string_lower name = "current"%string →
   workspaces_find w anchor (Some name) wrap = Some anchor)
  ∧ (string_lower name = "last"%string →
     workspaces_find w anchor (Some name) wrap = workspaces_last w)
  ∧ (string_lower name = "left"%string →
     workspaces_find w anchor (Some name) wrap
     = get_prev anchor (workspaces_all w) wrap)
  ∧ (string_lower name = "right"%string →
     workspaces_find w anchor (Some name) wrap
     = get_next anchor (workspaces_all w) wrap).
Proof.
  intros Hname.
  assert (Hkw : ∀ kw, kw ∈ workspace_keywords →
    (strcasecmp name kw =? 0) = bool_decide (string_lower name = kw)).
  { intros kw Hin.
    assert (Hc : is_c_string kw ∧ string_lower kw = kw).
    { unfold workspace_keywords in Hin. apply list_elem_of_In in Hin.
      cbn in Hin.
      destruct Hin as [<- | [<- | [<- | [<- | []]]]];
        (split; [apply is_c_string_literal |]; reflexivity). }
    destruct Hc as [Hc Hlow].
    pose proof (strcasecmp_zero_iff name kw Hname Hc) as Hiff.
    rewrite Hlow in Hiff.
    destruct (Z.eqb_spec (strcasecmp name kw) 0) as [H0 | H0];
      case_bool_decide; tauto. }
  assert (Hparse : ∀ kw, string_lower name = kw →
    kw ∈ workspace_keywords → parse_workspace_index name = 0).
  { intros kw Hlow Hin. destruct name as [| c s].
    - unfold workspace_keywords in Hin. apply list_elem_of_In in Hin.
      cbn in Hin, Hlow. intuition congruence.
    - apply parse_workspace_index_letter.
      unfold string_lower in Hlow. cbn [string_map] in Hlow.
      unfold workspace_keywords in Hin. apply list_elem_of_In in Hin.
      cbn in Hin.
      destruct Hin as [<- | [<- | [<- | [<- | []]]]];
        injection Hlow as -> _; vm_compute; split; discriminate. }
  assert (Hin : ∀ kw, In kw workspace_keywords → kw ∈ workspace_keywords).
  { intros kw. apply list_elem_of_In. }
  split; [| split; [| split]]; intros Hlow; unfold workspaces_find;
    rewrite (Hparse _ Hlow) by (apply Hin; cbn; tauto); cbn [Z.eqb negb];
    rewrite !Hkw by (apply Hin; cbn; tauto); rewrite Hlow; reflexivity.
Qed.

Lemma workspaces_find_keywords_witness :
  workspaces_find three_workspaces 6%positive (Some "LEFT"%string) true
  = Some 5%positive.
Proof.
  rewrite (proj1 (proj2 (proj2 (workspaces_find_keywords three_workspaces
    6%positive "LEFT"%string true
    ltac:(apply is_c_string_literal; reflexivity))))); reflexivity.
Defined.

(** X9.  A workspace is found by its own name when the name is neither a
    number nor one of the four words and no other workspace of the list
    has the same name up to case; any name that finds a workspace this way
    is the name of that workspace up to case. *)
Theorem workspaces_find_own_name w anchor name wrap :
  is_c_string name →
  parse_workspace_index name = 0 →
  string_lower name ∉ workspace_keywords →
  (∀ t ws, t ∈ workspaces_all w → workspace_table w !! t = Some ws →
           workspace_name ws = name →
           (∀ t' ws', t' ∈ workspaces_all w →
                      workspace_table w !! t' = Some ws' →
                      strcasecmp (workspace_name ws') name = 0 → t' = t) →
           workspaces_find w anchor (Some name) wrap = Some t)
  ∧ (∀ t, workspaces_find w anchor (Some name) wrap = Some t →
          t ∈ workspaces_all w
          ∧ ∃ ws, workspace_table w !! t = Some ws
                  ∧ strcasecmp (workspace_name ws) name = 0)
  ∧ (workspaces_find w anchor (Some name) wrap = None
     ↔ ∀ t ws, t ∈ workspaces_all w → workspace_table w !! t = Some ws →
               strcasecmp (workspace_name ws) name ≠ 0).
Proof.
  intros Hname Hparse Hkw.
  assert (Hfind : workspaces_find w anchor (Some name) wrap
    = find (workspace_named w name) (workspaces_all w)).
  { unfold workspaces_find. rewrite Hparse. cbn [Z.eqb negb].
    assert (Hno : ∀ kw, In kw workspace_keywords →
      (strcasecmp name kw =? 0) = false).
    { intros kw Hin. apply Z.eqb_neq. intros H0.
      assert (Hc : is_c_string kw ∧ string_lower kw = kw).
      { cbn in Hin.
        destruct Hin as [<- | [<- | [<- | [<- | []]]]];
          (split; [apply is_c_string_literal |]; reflexivity). }
      destruct Hc as [Hc Hlow].
      apply (strcasecmp_zero_iff name kw Hname Hc) in H0.
      rewrite Hlow in H0. apply Hkw. rewrite H0.
      now apply list_elem_of_In. }
    rewrite !Hno by (cbn; tauto). reflexivity. }
  rewrite Hfind. clear Hfind.
  assert (Hnamed : ∀ t, workspace_named w name t = true
    ↔ ∃ ws, workspace_table w !! t = Some ws
            ∧ strcasecmp (workspace_name ws) name = 0).
  { intros t. unfold workspace_named.
    destruct (workspace_table w !! t) as [ws |].
    - rewrite Z.eqb_eq. split; [eauto |]. now intros (ws' & [= <-] & H0).
    - split; [discriminate |]. now intros (ws' & [=] & _). }
  split; [| split].
  - intros t ws Ht Hws Hn Huniq.
    destruct (find (workspace_named w name) (workspaces_all w)) as [t' |]
      eqn:Hf.
    + apply find_some in Hf as [Hin Hm].
      apply Hnamed in Hm as (ws' & Hws' & H0). f_equal.
      eapply Huniq; [now apply list_elem_of_In | exact Hws' | exact H0].
    + exfalso. apply list_elem_of_In in Ht.
      pose proof (find_none _ _ Hf t Ht) as Hm.
      assert (Ht' : workspace_named w name t = true).
      { apply Hnamed. exists ws. split; [exact Hws |].
        rewrite Hn. apply strcasecmp_refl. }
      congruence.
  - intros t Hf. apply find_some in Hf as [Hin Hm].
    split; [now apply list_elem_of_In | now apply Hnamed].
  - split.
    + intros Hf t ws Ht Hws H0.
      apply list_elem_of_In in Ht. apply (find_none _ _ Hf) in Ht.
      assert (Ht' : workspace_named w name t = true) by (apply Hnamed; eauto).
      congruence.
    + intros Hall.
      destruct (find (workspace_named w name) (workspaces_all w)) as [t |]
        eqn:Hf; [| reflexivity].
      apply find_some in Hf as [Hin Hm]. apply Hnamed in Hm as (ws & Hws & H0).
      exfalso. apply (Hall t ws); [now apply list_elem_of_In | |]; assumption.
Qed.

Lemma workspaces_find_own_name_witness :
  workspaces_find three_workspaces 5%positive (Some "Mail"%string) false
  = Some 6%positive.
Proof.
  assert (Hc : is_c_string "Mail") by (apply is_c_string_literal; reflexivity).
  assert (Hp : parse_workspace_index "Mail" = 0) by reflexivity.
  assert (Hk : string_lower "Mail" ∉ workspace_keywords).
  { intros Hin. apply list_elem_of_In in Hin. cbn in Hin.
    intuition discriminate. }
  apply (proj1 (workspaces_find_own_name three_workspaces 5%positive
                  "Mail"%string false Hc Hp Hk) 6%positive
           {| workspace_name := "Mail"; workspace_tree := None |});
    [apply list_elem_of_In; cbn; tauto | reflexivity | reflexivity |].
  intros t' ws' Hin. apply list_elem_of_In in Hin. cbn in Hin.
  destruct Hin as [<- | [<- | [<- | []]]]; intros [= <-];
    [discriminate | reflexivity | discriminate].
Defined.

(** ** The end of a window switcher session *)

Lemma osd_finish_state s :
  preview_wf s →
  ∃ s',
    osd_finish s = Some s'
    ∧ osd s' = {| cycle_view := None;
                  preview_was_enabled := preview_was_enabled (osd s');
                  preview_node := None;
                  preview_parent := preview_parent (osd s');
                  preview_anchor := None; preview_outline := None |}
    ∧ input_mode s' = LAB_INPUT_STATE_PASSTHROUGH
    ∧ views s' = views s
    ∧ view_table s' = view_table s
    ∧ grabbed_view s' = grabbed_view s
    ∧ (preview_node (osd s) = None → preview_outline (osd s) = None →
       server_scene s' = server_scene s).
Proof.
  intros Hwf.
  destruct (restore_preview_node_restores s Hwf)
    as (s1 & Hres & _ & Hv1 & Ht1 & _ & Ho1 & _ & _).
  assert (Hsame : grabbed_view s1 = grabbed_view s
    ∧ (preview_node (osd s) = None → server_scene s1 = server_scene s)).
  { unfold restore_preview_node in Hres.
    destruct (preview_node (osd s)) as [n |].
    - destruct (wlr_scene_node_reparent n (preview_parent (osd s))
                  (server_scene s)) as [sc |]; [| discriminate].
      cbn [mbind option_bind] in Hres.
      destruct (match preview_anchor (osd s) with
                | Some a => wlr_scene_node_place_above n a sc
                | None => Some (wlr_scene_node_lower_to_bottom n sc)
                end) as [sc' |]; [| discriminate].
      cbn [mbind option_bind] in Hres. injection Hres as <-.
      split; [reflexivity | discriminate].
    - injection Hres as <-. split; reflexivity. }
  destruct Hsame as [Hg1 Hsc1].
  unfold osd_finish. rewrite Hres. cbn [mbind option_bind]. cbv zeta.
  cbn [osd set_osd preview_outline seat_focus_override_end set_input_mode].
  rewrite Ho1.
  destruct (preview_outline (osd s)) as [o |]; eexists;
    (split; [reflexivity |]);
    cbn [osd set_osd set_scene input_mode views view_table grabbed_view
         server_scene set_input_mode cycle_view preview_was_enabled
         preview_node preview_parent preview_anchor preview_outline];
    repeat apply conj; try reflexivity; try assumption; try discriminate.
  intros Hn _. now apply Hsc1.
Qed.

(** X10.  While the window switcher is active, [osd_on_view_destroy]
    returns and never leaves the destroyed view selected; the list of views
    is untouched.  When another view is selected the call changes neither
    the selection, the input mode, the scene nor the recorded preview
    node. *)
Theorem osd_on_view_destroy_no_dangling s v :
  input_mode s = LAB_INPUT_STATE_WINDOW_SWITCHER →
  preview_wf s →
  ∃ s',
    osd_on_view_destroy s v = Some s'
    ∧ cycle_view (osd s') ≠ Some v
    ∧ views s' = views s
    ∧ view_table s' = view_table s
    ∧ (cycle_view (osd s) ≠ Some v →
       cycle_view (osd s') = cycle_view (osd s)
       ∧ input_mode s' = input_mode s
       ∧ server_scene s' = server_scene s
       ∧ preview_node (osd s') = preview_node (osd s)).
Proof.
  intros Hmode Hwf. unfold osd_on_view_destroy. rewrite Hmode.
  rewrite bool_decide_eq_true_2 by reflexivity. cbn [negb].
  assert (Hlast : ∀ s1 : server,
    cycle_view (osd s1) ≠ Some v →
    ∃ s',
      match view_table s1 !! v ≫= scene_tree with
      | Some node =>
          if ptr_eqb (preview_anchor (osd s1)) (Some node) then
            Some (set_osd (set_preview_anchor
                             (lab_wlr_scene_get_prev_node (server_scene s1)
                                node) (osd s1)) s1)
          else Some s1
      | None => Some s1
      end = Some s'
      ∧ cycle_view (osd s') = cycle_view (osd s1)
      ∧ views s' = views s1
      ∧ view_table s' = view_table s1
      ∧ input_mode s' = input_mode s1
      ∧ server_scene s' = server_scene s1
      ∧ preview_node (osd s') = preview_node (osd s1)).
  { intros s1 _. destruct (view_table s1 !! v ≫= scene_tree) as [node |];
      [destruct (ptr_eqb (preview_anchor (osd s1)) (Some node)) |];
      eexists; repeat apply conj; reflexivity. }
  case_bool_decide as Hsel.
  - cbv zeta.
    set (next := get_next_cycle_view s (cycle_view (osd s))
                   LAB_CYCLE_DIR_BACKWARD).
    set (s0 := set_osd (set_cycle_view next (osd s)) s).
    change (cycle_view (osd s0)) with next.
    destruct (bool_decide (next = Some v) || bool_decide (next = None))
      eqn:Hnext.
    + destruct (osd_finish_state s0 Hwf)
        as (sf & Hfin & Hosd & _ & Hv & Ht & _).
      rewrite Hfin. cbn [mbind option_bind].
      destruct (Hlast sf) as (s' & Hcall & Hc & Hv' & Ht' & _).
      { rewrite Hosd. discriminate. }
      exists s'. split; [exact Hcall |].
      rewrite Hc, Hv', Ht', Hv, Ht, Hosd.
      repeat apply conj; try reflexivity; [discriminate | congruence].
    + apply orb_false_iff in Hnext as [Hnv _].
      apply bool_decide_eq_false in Hnv.
      cbn [mbind option_bind].
      destruct (Hlast s0 Hnv) as (s' & Hcall & Hc & Hv' & Ht' & _).
      exists s'. split; [exact Hcall |].
      rewrite Hc, Hv', Ht'.
      repeat apply conj; try reflexivity; [exact Hnv | congruence].
  - cbn [mbind option_bind].
    destruct (Hlast s Hsel) as (s' & Hcall & Hc & Hv' & Ht' & Hm & Hsc & Hn).
    exists s'. split; [exact Hcall |]. rewrite Hc.
    repeat apply conj; try assumption. intros _.
    repeat apply conj; congruence.
Qed.

Lemma osd_on_view_destroy_no_dangling_witness :
  ∃ s',
    osd_on_view_destroy preview_server 1%positive = Some s'
    ∧ cycle_view (osd s') ≠ Some 1%positive.
Proof.
  destruct (osd_on_view_destroy_no_dangling preview_server 1%positive
              eq_refl preview_server_wf) as (s' & Hcall & Hsel & _).
  exists s'. split; assumption.
Defined.

(** X11.  [osd_finish] on a state whose recorded preview can be restored
    returns a state that is idle, with no selection, no preview node, no
    anchor and no outline, and with the views and the grab untouched;
    finishing that state again changes nothing, and without a recorded
    preview node and outline the scene is untouched. *)
Theorem osd_finish_idempotent s :
  preview_wf s →
  ∃ s',
    osd_finish s = Some s'
    ∧ osd_finish s' = Some s'
    ∧ cycle_view (osd s') = None
    ∧ preview_node (osd s') = None
    ∧ preview_anchor (osd s') = None
    ∧ preview_outline (osd s') = None
    ∧ input_mode s' = LAB_INPUT_STATE_PASSTHROUGH
    ∧ views s' = views s
    ∧ grabbed_view s' = grabbed_view s
    ∧ (preview_node (osd s) = None → preview_outline (osd s) = None →
       server_scene s' = server_scene s).
Proof.
  intros Hwf.
  destruct (osd_finish_state s Hwf)
    as (s' & Hfin & Hosd & Hmode & Hv & _ & Hg & Hsc).
  exists s'. split; [exact Hfin |].
  rewrite Hosd. cbn [cycle_view preview_node preview_anchor preview_outline].
  repeat apply conj; try reflexivity; try assumption.
  destruct s' as [m g gx gy gb c o vs vt [cv pe pn pp pa po] sc].
  cbn in Hosd, Hmode. injection Hosd as -> -> -> ->. subst m.
  reflexivity.
Qed.

Lemma osd_finish_idempotent_witness :
  ∃ s',
    osd_finish preview_server = Some s'
    ∧ osd_finish s' = Some s'
    ∧ input_mode s' = LAB_INPUT_STATE_PASSTHROUGH.
Proof.
  destruct (osd_finish_idempotent preview_server preview_server_wf)
    as (s' & Hfin & Hagain & _ & _ & _ & _ & Hmode & _).
  exists s'. repeat apply conj; assumption.
Defined.

(** X12.  [osd_begin] changes the selection and the input mode only; a
    second [osd_begin] changes nothing, whatever its direction.  From an
    idle state it activates the window switcher, so that the assertion of
    [osd_cycle] holds; [osd_cycle] fails its assertion in any other mode.
    A session begun from an idle state with nothing recorded and finished
    at once leaves the state as it was before. *)
Theorem osd_begin_once s d d' :
  osd_begin (osd_begin s d) d' = osd_begin s d
  ∧ server_scene (osd_begin s d) = server_scene s
  ∧ views (osd_begin s d) = views s
  ∧ grabbed_view (osd_begin s d) = grabbed_view s
  ∧ set_cycle_view None (osd (osd_begin s d)) = set_cycle_view None (osd s)
  ∧ (input_mode s = LAB_INPUT_STATE_PASSTHROUGH →
     input_mode (osd_begin s d) = LAB_INPUT_STATE_WINDOW_SWITCHER
     ∧ is_Some (osd_cycle (osd_begin s d) d'))
  ∧ (input_mode s ≠ LAB_INPUT_STATE_WINDOW_SWITCHER → osd_cycle s d' = None)
  ∧ (input_mode s = LAB_INPUT_STATE_PASSTHROUGH →
     cycle_view (osd s) = None → preview_node (osd s) = None →
     preview_anchor (osd s) = None → preview_outline (osd s) = None →
     osd_finish (osd_begin s d) = Some s).
Proof.
  unfold osd_begin at 2 3 4 5 6 7 8 9.
  case_bool_decide as Hmode; cbn [negb].
  - split.
    { unfold osd_begin.
      cbn [input_mode seat_focus_override_begin set_input_mode set_osd].
      rewrite bool_decide_eq_false_2 by discriminate. reflexivity. }
    repeat apply conj; try reflexivity.
    + intros _. split; [reflexivity |]. unfold osd_cycle.
      cbn [input_mode seat_focus_override_begin set_input_mode set_osd].
      rewrite bool_decide_eq_true_2 by reflexivity. cbn [negb]. eauto.
    + intros Hne. unfold osd_cycle.
      rewrite bool_decide_eq_false_2 by exact Hne. reflexivity.
    + intros _.
      destruct s as [m g gx gy gb c o vs vt [cv pe pn pp pa po] sc].
      cbn in Hmode |- *. intros -> -> -> ->. subst m. reflexivity.
  - split.
    { unfold osd_begin. rewrite bool_decide_eq_false_2 by exact Hmode.
      reflexivity. }
    repeat apply conj; try reflexivity.
    + intros Hidle. contradiction.
    + intros Hne. unfold osd_cycle.
      rewrite bool_decide_eq_false_2 by exact Hne. reflexivity.
    + intros Hidle. contradiction.
Qed.

(** ** Names of the decoration trees *)

(** X14.  [ssd_debug_get_node_name] names a node exactly when it is one of
    the six trees the function compares it with, the name is "view->ssd"
    exactly for the node [ssd_debug_is_root_node] accepts, and without a
    decoration or a node neither function finds anything. *)
Theorem ssd_debug_names s node :
  (ssd_debug_is_root_node s node = true
   ↔ ssd_debug_get_node_name s node = Some "view->ssd"%string)
  ∧ (is_Some (ssd_debug_get_node_name s node)
     ↔ ∃ d n, s = Some d ∧ node = Some n ∧ Some n ∈ named_trees d)
  ∧ (s = None ∨ node = None →
     ssd_debug_is_root_node s node = false
     ∧ ssd_debug_get_node_name s node = None).
Proof.
  unfold ssd_debug_is_root_node, ssd_debug_get_node_name, named_trees, ptr_eqb.
  destruct s as [d |], node as [n |].
  2-4: split; [| split];
       [split; discriminate
       | split; [intros [? [=]] | intros (? & ? & ? & ? & ?); congruence]
       | intros _; split; reflexivity].
  split; [| split].
  - repeat case_bool_decide; split; congruence.
  - split.
    + intros Hsome. exists d, n. split; [reflexivity |].
      split; [reflexivity |]. apply list_elem_of_In. cbn [In].
      repeat case_bool_decide; try (intuition congruence).
      destruct Hsome as [? [=]].
    + intros (d' & n' & [= <-] & [= <-] & Hin).
      apply list_elem_of_In in Hin. cbn [In] in Hin.
      repeat case_bool_decide; eauto.
      exfalso. intuition congruence.
  - intros [[=] | [=]].
Qed.

(** ** Switching a decoration twice *)

Lemma nodes_set_enabled n b sc m :
  nodes (wlr_scene_node_set_enabled n b sc) !! m
  = if bool_decide (m = n) then set_node_enabled b <$> nodes sc !! m
    else nodes sc !! m.
Proof.
  unfold wlr_scene_node_set_enabled. cbn [nodes]. case_bool_decide as Hm.
  - subst m. now rewrite lookup_alter_eq.
  - now rewrite lookup_alter_ne by congruence.
Qed.

Lemma scene_eq (sc1 sc2 : scene) :
  (∀ m, nodes sc1 !! m = nodes sc2 !! m) → children sc1 = children sc2 →
  sc1 = sc2.
Proof.
  destruct sc1, sc2. cbn. intros Hn ->. f_equal. now apply map_eq.
Qed.

(** X15.  [ssd_set_active] changes nothing but the enabled flags: the nodes
    of the scene, their types, parents and children stay as they are; and
    switching a decoration to the state it was just switched to changes
    nothing. *)
Theorem ssd_set_active_idempotent s active sc sc' :
  ssd_set_active s active sc = Some sc' →
  ssd_set_active s active sc' = Some sc'
  ∧ children sc' = children sc
  ∧ ∀ m, parent_of sc' m = parent_of sc m
         ∧ node_type <$> nodes sc' !! m = node_type <$> nodes sc !! m
         ∧ (in_scene sc' m ↔ in_scene sc m).
Proof.
  unfold ssd_set_active. destruct s as [d |].
  2: { intros [= <-]. repeat apply conj; reflexivity || tauto. }
  destruct (tree (border_active d)) as [ba |]; [| discriminate].
  destruct (tree (titlebar_active d)) as [ta |]; [| discriminate].
  destruct (tree (border_inactive d)) as [bi |]; [| discriminate].
  destruct (tree (titlebar_inactive d)) as [ti |]; [| discriminate].
  cbn [mbind option_bind]. cbv zeta. intros [= <-].
  split; [| split].
  - f_equal. apply scene_eq.
    + intros m.
      destruct (tree (shadow_active d)) as [sa |],
               (tree (shadow_inactive d)) as [si |];
        rewrite !nodes_set_enabled;
        repeat match goal with
               | |- context [bool_decide (m = ?n)] =>
                   destruct (bool_decide (m = n))
               end;
        destruct (nodes sc !! m); reflexivity.
    + destruct (tree (shadow_active d)), (tree (shadow_inactive d));
        reflexivity.
  - destruct (tree (shadow_active d)), (tree (shadow_inactive d));
      reflexivity.
  - intros m. unfold parent_of, in_scene.
    destruct (tree (shadow_active d)) as [sa |],
             (tree (shadow_inactive d)) as [si |];
      rewrite !nodes_set_enabled;
      repeat match goal with
             | |- context [bool_decide (m = ?n)] =>
                 destruct (bool_decide (m = n))
             end;
      destruct (nodes sc !! m); cbn;
        (split; [reflexivity | split; [reflexivity |]]);
        tauto || (split; intros _; eexists; reflexivity).
Qed.

Lemma ssd_set_active_idempotent_witness :
  ∃ sc',
    ssd_set_active (Some deco_ssd) true deco_scene = Some sc'
    ∧ ssd_set_active (Some deco_ssd) true sc' = Some sc'.
Proof.
  eexists. split; [reflexivity |].
  apply (ssd_set_active_idempotent (Some deco_ssd) true deco_scene).
  reflexivity.
Defined.

(** ** Where a part type comes from *)

Lemma get_resizing_type_range rc s cursor :
  get_resizing_type rc s cursor = LAB_SSD_NONE
  ∨ get_resizing_type rc s cursor ∈ resize_parts.
Proof.
  unfold get_resizing_type.
  destruct (s ≫= ssd_view) as [v |]; [| now left].
  destruct cursor as [c |]; [| now left].
  destruct (negb (ssd_enabled v) || fullscreen v); [now left |].
  cbv zeta.
  destruct (wlr_box_contains_point _ _ _); [now left |].
  unfold resize_parts.
  repeat match goal with
         | |- context [if ?b then _ else _] => destruct b; cbn [andb]
         end;
    (now left) || (right; apply list_elem_of_In; cbn; tauto).
Qed.

Lemma scan_parts_some node (l : list ssd_part) :
  scan_parts node l ≠ LAB_SSD_NONE →
  ∃ part, part ∈ l ∧ part_node part = Some node
          ∧ part_type part = scan_parts node l.
Proof.
  induction l as [| part rest IH]; cbn [scan_parts]; [congruence |].
  unfold ptr_eqb. case_bool_decide as Hn.
  - intros _. exists part. split; [now left | now split].
  - intros Hne. destruct (IH Hne) as (p & Hin & Hp).
    exists p. split; [now right | exact Hp].
Qed.

Lemma find_part_list_some sc d node l :
  find_part_list sc d node = Some l →
  ∃ sub, sub ∈ searched_sub_trees d ∧ tree sub ∈ ancestors3 sc node
         ∧ l = parts sub.
Proof.
  unfold find_part_list, searched_sub_trees, ancestors3, ptr_eqb. cbv zeta.
  repeat case_bool_decide; intros [= <-];
    match goal with
    | |- ∃ sub, _ ∧ _ ∧ parts ?s = parts sub => exists s
    end;
    (split; [apply list_elem_of_In; cbn; tauto |]);
    (split; [| reflexivity]);
    apply list_elem_of_In; cbn; intuition congruence.
Qed.

(** X16.  For a node that is not client content, a result of
    [ssd_get_part_type] other than [LAB_SSD_NONE] is backed by a stored
    part: one of the two titlebar and the two border sub-trees is the
    parent, the grandparent or the great-grandparent of the node and holds
    a part for the node whose type is not [LAB_SSD_NONE]; the result is the
    type of that part or one of the eight parts that resize.  The parts of
    the extents and of the shadows are never looked through. *)
Theorem ssd_get_part_type_stored rc sc d node cursor :
  is_client_node sc node = false →
  ssd_get_part_type rc sc (Some d) (Some node) cursor ≠ LAB_SSD_NONE →
  ∃ sub part,
    sub ∈ searched_sub_trees d
    ∧ tree sub ∈ ancestors3 sc node
    ∧ part ∈ parts sub
    ∧ part_node part = Some node
    ∧ part_type part ≠ LAB_SSD_NONE
    ∧ (ssd_get_part_type rc sc (Some d) (Some node) cursor = part_type part
       ∨ ssd_get_part_type rc sc (Some d) (Some node) cursor ∈ resize_parts).
Proof.
  intros Hclient. unfold ssd_get_part_type. rewrite Hclient. cbv zeta.
  destruct (part_eqb (node_part_type sc d node) LAB_SSD_NONE) eqn:Hnone.
  { apply part_eqb_eq in Hnone. congruence. }
  apply part_eqb_neq in Hnone. intros Hres.
  unfold node_part_type in Hnone |- *.
  destruct (find_part_list sc d node) as [l |] eqn:Hfind; [| congruence].
  destruct (find_part_list_some sc d node l Hfind)
    as (sub & Hsub & Htree & ->).
  destruct (scan_parts_some node (parts sub) Hnone)
    as (part & Hin & Hnode & Htype).
  exists sub, part. repeat apply conj; try assumption.
  - congruence.
  - destruct (get_resizing_type_range rc (Some d) cursor) as [Hr | Hr].
    + left. rewrite Hr. cbn. now symmetry.
    + right.
      destruct (part_eqb (get_resizing_type rc (Some d) cursor)
                  LAB_SSD_NONE) eqn:Hr0; cbn [negb]; [| exact Hr].
      apply part_eqb_eq in Hr0. rewrite Hr0 in Hr.
      apply list_elem_of_In in Hr. cbn in Hr. intuition discriminate.
Qed.

Lemma ssd_get_part_type_stored_witness :
  ∃ sub part,
    sub ∈ searched_sub_trees border_ssd
    ∧ part ∈ parts sub
    ∧ part_node part = Some 2%positive.
Proof.
  destruct (ssd_get_part_type_stored wide_range border_scene border_ssd
              2%positive (Some (cursor_at (-5) (-5))))
    as (sub & part & Hsub & _ & Hin & Hnode & _).
  - vm_compute; reflexivity.
  - vm_compute; discriminate.
  - exists sub, part. repeat apply conj; assumption.
Defined.
